(** * Cointegrated pairs screening: a shallow embedding of [pairs_trading.py]

    The development embeds the statistical screening engine
    ([PairsAnalyzer.calculate_cointegration], [PairsAnalyzer.analyze_pairs])
    and the reporting tail of [main] (column check, CSV records, lookup
    loop), and states the properties of the design document over them.

    Conventions.
    - A Python [float] is an IEEE-754 value: [spec_float] of the standard
      library, compared with [SFltb]/[SFleb]/[SFeqb] (a comparison with NaN
      is false).  Every lemma below holds for all of [spec_float], hence for
      the binary64 values Python uses.
    - A Python [int] is a [Z].
    - A Python [str] is a [string]; the model covers ASCII text
      ([str.upper] and [str.strip] are the ASCII restrictions of the
      Unicode ones).
    - Code that may raise returns a [result]; [try ... except Exception] is
      the combinator [try_except].
    - [pandas], [numpy], [statsmodels] are not part of the repository: the
      three functions the analyzer calls are the fields of the class
      [StatsLib]. *)

From Stdlib Require Import List ZArith Lia Bool String Ascii.
From Stdlib Require Import Permutation Sorted.
From Stdlib Require Import SpecFloat.
Import ListNotations.

Local Open Scope string_scope.
Local Open Scope list_scope.
Local Open Scope Z_scope.

(* ================================================================== *)
(** * Python values *)

Module PyFloat.

Definition float : Type := spec_float.

(** [a < b], [a <= b] and [a == b] on floats. *)
Definition lt (a b : float) : bool := SFltb a b.
Definition le (a b : float) : bool := SFleb a b.
Definition eq (a b : float) : bool := SFeqb a b.

Definition isnan (a : float) : bool :=
  match a with S754_nan => true | _ => false end.

Definition isfinite (a : float) : bool :=
  match a with S754_zero _ | S754_finite _ _ _ => true | _ => false end.

Definition zero : float := S754_zero false.

(** ** [format(x, '.<prec>f')]

    CPython prints the correctly rounded decimal expansion of the exact
    binary value [m * 2^e], ties to even, keeps the sign of a negative
    zero, and prints [inf], [-inf] and [nan] for the special values. *)

Definition digit_char (d : Z) : ascii :=
  ascii_of_N (Z.to_N (48 + d mod 10)).

Definition is_digit (c : ascii) : bool :=
  let n := N_of_ascii c in ((48 <=? n) && (n <=? 57))%N.

(** The decimal digits of [n >= 0], most significant first, at least one;
    [fuel] bounds the number of digits. *)
Fixpoint int_digits (fuel : nat) (n : Z) : string :=
  match fuel with
  | O => String (digit_char n) EmptyString
  | S fuel' =>
      if n <? 10 then String (digit_char n) EmptyString
      else (int_digits fuel' (n / 10) ++ String (digit_char n) EmptyString)%string
  end.

Definition str_int (n : Z) : string :=
  int_digits (Z.to_nat (Z.log2 n)) n.

(** The number a string of decimal digits denotes. *)
Fixpoint digits_value (acc : Z) (s : string) : Z :=
  match s with
  | EmptyString => acc
  | String c s' => digits_value (10 * acc + (Z.of_N (N_of_ascii c) - 48)) s'
  end.

(** The last [k] decimal digits of [n], zero padded. *)
Fixpoint frac_digits (k : nat) (n : Z) : string :=
  match k with
  | O => EmptyString
  | S k' => (frac_digits k' (n / 10) ++ String (digit_char n) EmptyString)%string
  end.

(** [m * 2^e * 10^prec] rounded to the nearest integer, ties to even. *)
Definition scaled_round (prec : nat) (m : positive) (e : Z) : Z :=
  let p10 := 10 ^ Z.of_nat prec in
  if 0 <=? e then Z.pos m * 2 ^ e * p10
  else
    let num := Z.pos m * p10 in
    let den := 2 ^ (- e) in
    let q := num / den in
    let r := num mod den in
    if 2 * r <? den then q
    else if den <? 2 * r then q + 1
    else if Z.even q then q else q + 1.

Definition sign_str (s : bool) : string := if s then "-" else "".

Definition fixed_point (prec : nat) (n : Z) : string :=
  let p10 := 10 ^ Z.of_nat prec in
  (str_int (n / p10) ++
   match prec with
   | O => ""
   | _ => "." ++ frac_digits prec (n mod p10)
   end)%string.

Definition format_f (prec : nat) (x : float) : string :=
  match x with
  | S754_nan => "nan"
  | S754_infinity s => (sign_str s ++ "inf")%string
  | S754_zero s => (sign_str s ++ fixed_point prec 0)%string
  | S754_finite s m e =>
      (sign_str s ++ fixed_point prec (scaled_round prec m e))%string
  end.

(** What "formatted to [prec] decimal places" means for a string: an
    optional minus sign, one or more digits, a point, and exactly [prec]
    digits. *)
Definition all_digits (s : string) : bool :=
  forallb is_digit (list_ascii_of_string s).

Definition decimal_places (prec : nat) (s : string) : Prop :=
  exists (sgn ip fp : string),
    s = (sgn ++ ip ++ "." ++ fp)%string /\
    (sgn = "" \/ sgn = "-") /\
    ip <> "" /\ all_digits ip = true /\
    String.length fp = prec /\ all_digits fp = true.

(** Some binary64 constants used in examples (mantissa, exponent). *)
Definition f_0_05 : float := S754_finite false 7205759403792794 (-57).
Definition f_0_03125 : float := S754_finite false 4503599627370496 (-57).
Definition f_0_0625 : float := S754_finite false 4503599627370496 (-56).
Definition f_0_5 : float := S754_finite false 4503599627370496 (-53).
Definition f_1 : float := S754_finite false 4503599627370496 (-52).
Definition f_m3_5 : float := S754_finite true 7881299347898368 (-51).
Definition f_ninf : float := S754_infinity true.

End PyFloat.

Module PyStr.

(** [c.isspace()] on ASCII. *)
Definition is_space (c : ascii) : bool :=
  let n := N_of_ascii c in
  ((n =? 32) || ((9 <=? n) && (n <=? 13)) || ((28 <=? n) && (n <=? 31)))%N.

Definition upper_char (c : ascii) : ascii :=
  let n := N_of_ascii c in
  if ((97 <=? n) && (n <=? 122))%N then ascii_of_N (n - 32) else c.

(** [s.upper()] *)
Fixpoint upper (s : string) : string :=
  match s with
  | EmptyString => EmptyString
  | String c s' => String (upper_char c) (upper s')
  end.

(** [s.lstrip()], [s.rstrip()], [s.strip()] *)
Fixpoint lstrip (s : string) : string :=
  match s with
  | EmptyString => EmptyString
  | String c s' => if is_space c then lstrip s' else s
  end.

Fixpoint rstrip (s : string) : string :=
  match s with
  | EmptyString => EmptyString
  | String c s' =>
      match rstrip s' with
      | EmptyString => if is_space c then EmptyString else String c EmptyString
      | r => String c r
      end
  end.

Definition strip (s : string) : string := rstrip (lstrip s).

(** [s.split(sep)[0]] for a one-character separator: the text before the
    first [sep], all of [s] when there is none. *)
Fixpoint split_head (sep : ascii) (s : string) : string :=
  match s with
  | EmptyString => EmptyString
  | String c s' =>
      if Ascii.eqb c sep then EmptyString else String c (split_head sep s')
  end.

End PyStr.

Module PyList.

Section Ops.
Context {A : Type}.

(** [itertools.combinations(l, 2)]: position pairs [i < j], the first
    position varying slowest. *)
Fixpoint combinations (l : list A) : list (A * A) :=
  match l with
  | [] => []
  | x :: t => (map (pair x) t ++ combinations t)%list
  end.

(** [l[:k]] for an [int] [k]: a negative [k] counts from the end. *)
Definition slice_to (k : Z) (l : list A) : list A :=
  if 0 <=? k then firstn (Z.to_nat k) l
  else firstn (List.length l - Z.to_nat (- k))%nat l.

(** [l.sort(key=key)]: a stable sort that compares keys with [<] only.
    Each element is inserted into the already sorted prefix to the
    right of every element that is not greater than it (the binary
    insertion step of CPython's list sort, found here by a linear
    scan). *)
Variable K : Type.
Variable key : A -> K.
Variable ltk : K -> K -> bool.

Fixpoint insert_right (x : A) (l : list A) : list A :=
  match l with
  | [] => [x]
  | y :: l' =>
      if ltk (key x) (key y) then x :: l else y :: insert_right x l'
  end.

Definition sort_by (l : list A) : list A :=
  fold_left (fun acc x => insert_right x acc) l [].

(** [x] may stand before [y] in a list sorted by key. *)
Definition not_after (x y : A) : Prop := ltk (key y) (key x) = false.

(** The key of [x] is neither less nor greater than [k]. *)
Definition same_key (k : K) (x : A) : bool :=
  negb (ltk (key x) k) && negb (ltk k (key x)).

(** The key of [x] is strictly less than the key of [y]. *)
Definition strictly_before (x y : A) : Prop := ltk (key x) (key y) = true.

(** Removal of position [i]. *)
Fixpoint remove_nth (i : nat) (l : list A) : list A :=
  match l, i with
  | [], _ => []
  | _ :: t, O => t
  | x :: t, S i' => x :: remove_nth i' t
  end.

End Ops.

End PyList.

(* ================================================================== *)
(** * The program *)

Module Engine.
Import PyFloat PyStr PyList.

(** ** Exceptions *)

(** An exception instance of class [Exception] or of a subclass of it,
    with its message.  The library calls of the analyzer raise nothing
    else: [KeyboardInterrupt] and [SystemExit] do not arise inside the
    numerical routines run by a worker thread. *)
Inductive exn : Type := Exception (msg : string).

Definition exn_msg (e : exn) : string := let (m) := e in m.

Inductive result (A : Type) : Type :=
| Returned (a : A)
| Raised (e : exn).
Arguments Returned {A} a.
Arguments Raised {A} e.

Definition bind {A B : Type} (c : result A) (k : A -> result B) : result B :=
  match c with
  | Returned a => k a
  | Raised e => Raised e
  end.

(** [try: body except Exception as e: handler e] *)
Definition try_except {A : Type} (body : result A) (handler : exn -> result A)
  : result A :=
  match body with
  | Returned a => Returned a
  | Raised e => handler e
  end.

Notation "x <- c ;; k" := (bind c (fun x => k))
  (at level 61, c at next level, right associativity).

(** ** Logging *)

Inductive level : Type := INFO | WARNING | ERROR.
Definition LogRecord : Type := (level * string)%type.

(** ** Data *)

Definition Series : Type := list float.

(** A [pandas.DataFrame]: the shared index (timestamps in milliseconds)
    and the columns in their order, each a label and its values.  The
    frame of [main] is built from a dict, so its labels are distinct; no
    result below depends on that. *)
Record DataFrame : Type := mkFrame {
  index : list Z;
  data : list (string * Series)
}.

(** [df.columns] *)
Definition columns (df : DataFrame) : list string := map fst (data df).

(** [df[label]]; an unknown label raises [KeyError]. *)
Fixpoint lookup_column (cols : list (string * Series)) (label : string)
  : result Series :=
  match cols with
  | [] => Raised (Exception ("KeyError: " ++ label)%string)
  | (l, s) :: cols' =>
      if String.eqb l label then Returned s else lookup_column cols' label
  end.

Definition getitem (df : DataFrame) (label : string) : result Series :=
  lookup_column (data df) label.

(** [len(series)] *)
Definition len (s : Series) : Z := Z.of_nat (List.length s).

(** [@dataclass class Config].  [ThreadPoolExecutor] refuses a pool size
    that is not positive, so [max_workers] is a [positive]. *)
Record Config : Type := mkConfig {
  timeframe : string;
  days : Z;
  coint_threshold : float;
  market_type : string;
  output_file : string;
  min_open_interest : float;
  min_volume : float;
  enable_volume_filter : bool;
  enable_open_interest_filter : bool;
  top_n_pairs : Z;
  max_workers : positive;
  min_data_points : Z;
  rate_limit_sleep : float
}.

(** [Config()] *)
Definition default_config : Config := {|
  timeframe := "4h";
  days := 90;
  coint_threshold := f_0_05;
  market_type := "future";
  output_file := "pairs_to_trade.csv";
  min_open_interest := S754_finite false 6710886400000000 (-27);
  min_volume := S754_finite false 8388608000000000 (-24);
  enable_volume_filter := false;
  enable_open_interest_filter := false;
  top_n_pairs := 10;
  max_workers := 8;
  min_data_points := 50;
  rate_limit_sleep := S754_finite false 7205759403792794 (-56)
|}.

(** ** The libraries the analyzer calls *)

Inductive autolag : Type := AIC | BIC | t_stat.

(** On a series of floats [var] and [isclose] return; [coint] returns or
    raises. *)
Class StatsLib : Type := {
  (** [pandas.Series.var()] *)
  series_var : Series -> float;
  (** [numpy.isclose(a, b)] *)
  np_isclose : float -> float -> bool;
  (** [statsmodels.tsa.stattools.coint(y0, y1, autolag=...)]: the
      statistic, the p-value and the critical values, or an exception. *)
  coint : Series -> Series -> autolag -> result (float * float * list float)
}.

(** The dict [{'score': score, 'pvalue': pvalue}]. *)
Record CointDict : Type := mkDict { score : float; pvalue : float }.

(** The tuple [( *pair, result['pvalue'], result['score'])]; the fields
    are its positions 0 to 3. *)
Record PairTuple : Type := mkTuple {
  leg0 : string;
  leg1 : string;
  pval : float;
  stat : float
}.

Section Analyzer.
Context {L : StatsLib}.
Variable config : Config.

(** ** [PairsAnalyzer.calculate_cointegration]

    The value is what the logger received and what the method
    returned. *)
Definition calculate_cointegration (series1 series2 : Series)
  : result (list LogRecord * option CointDict) :=
  if (len series1 <? min_data_points config)
     || (len series2 <? min_data_points config)
  then Returned ([], None)
  else if np_isclose (series_var series1) zero
          || np_isclose (series_var series2) zero
  then Returned ([], None)
  else
    try_except
      (r <- coint series1 series2 BIC ;;
       let '(score, pvalue, _) := r in
       Returned ([], Some {| score := score; pvalue := pvalue |}))
      (fun e =>
         Returned ([(ERROR, ("Cointegration test failed: " ++ exn_msg e)%string)],
                   None)).

(** ** The thread pool *)

(** A future with the pair it is filed under in [future_to_pair]; it
    holds the outcome of its job. *)
Definition Future : Type :=
  ((string * string) * result (list LogRecord * option CointDict))%type.

(** The dict comprehension: for each pair the two columns are fetched
    by the caller and the job is submitted. *)
Fixpoint submit_all (closes : DataFrame) (pairs : list (string * string))
  : result (list Future) :=
  match pairs with
  | [] => Returned []
  | pr :: rest =>
      s1 <- getitem closes (fst pr) ;;
      s2 <- getitem closes (snd pr) ;;
      fs <- submit_all closes rest ;;
      Returned ((pr, calculate_cointegration s1 s2) :: fs)
  end.

(** [as_completed]: the futures in the order their jobs finish.  The
    order is not determined by the program; a schedule fixes it: its
    [n]-th entry (0 when the schedule is used up) selects, modulo their
    number, which of the still pending futures is yielded next.  Every
    schedule yields each future once, and every order of the futures
    is the yield of some schedule. *)
Fixpoint yield_order {A : Type} (n : nat) (sched : list nat)
  (pending : list A) : list A :=
  match n with
  | O => []
  | S n' =>
      let i := Nat.modulo (hd O sched) (List.length pending) in
      match nth_error pending i with
      | Some f => f :: yield_order n' (tl sched) (remove_nth i pending)
      | None => []
      end
  end.

Definition as_completed {A : Type} (sched : list nat) (fs : list A)
  : list A :=
  yield_order (List.length fs) sched fs.

(** The loop over [as_completed]: [future.result()] returns the job's
    value or raises what the job raised. *)
Fixpoint collect (done : list Future) (results : list PairTuple)
  : result (list PairTuple) :=
  match done with
  | [] => Returned results
  | (pr, outcome) :: rest =>
      r <- outcome ;;
      match snd r with
      | Some d =>
          if lt (pvalue d) (coint_threshold config)
          then collect rest
                 (results ++
                  [{| leg0 := fst pr; leg1 := snd pr;
                      pval := pvalue d; stat := score d |}])
          else collect rest results
      | None => collect rest results
      end
  end.

(** ** [PairsAnalyzer.analyze_pairs] *)
Definition analyze_pairs (closes : DataFrame) (sched : list nat)
  : result (list PairTuple * list PairTuple) :=
  let pairs := combinations (columns closes) in
  future_to_pair <- submit_all closes pairs ;;
  results <- collect (as_completed sched future_to_pair) [] ;;
  let results := sort_by float pval lt results in
  let top_pairs := slice_to (top_n_pairs config) results in
  Returned (results, top_pairs).

End Analyzer.

End Engine.

Module App.
Import PyFloat PyStr PyList Engine.

(** ** The reporting tail of [main]

    [main] is modelled from the aligned price matrix on.  What it does
    is recorded as events, in order. *)

(** One record of the list handed to [pd.DataFrame(output).to_csv]. *)
Record CsvRow : Type := mkRow {
  Pair : string;
  P_Value : string;
  Score : string
}.

Inductive Event : Type :=
| Logged (r : LogRecord)
| ToCsv (file : string) (rows : list CsvRow)
| Asked (prompt : string)
| Cleared
| Printed (line : string).

Definition nl : string := String (ascii_of_N 10) EmptyString.

(** The dict built for one of the top pairs. *)
Definition csv_row (pair : PairTuple) : CsvRow := {|
  Pair := (leg0 pair ++ "-" ++ leg1 pair)%string;
  P_Value := format_f 4 (pval pair);
  Score := format_f 2 (stat pair)
|}.

(** The line printed for a pair by the lookup loop. *)
Definition query_line (pair : PairTuple) : string :=
  (leg0 pair ++ " - " ++ leg1 pair ++ ": p-value=" ++ format_f 4 (pval pair)
   ++ ", score=" ++ format_f 2 (stat pair))%string.

(** [str(closes.shape)] *)
Definition shape_str (closes : DataFrame) : string :=
  ("(" ++ str_int (Z.of_nat (List.length (index closes))) ++ ", "
   ++ str_int (Z.of_nat (List.length (columns closes))) ++ ")")%string.

(** What a run did: its events, the pairs whose jobs were submitted to
    the pool, and the full list kept for the lookup loop when the run
    got that far. *)
Record Run : Type := mkRun {
  events : list Event;
  scheduled : list (string * string);
  all_pairs_kept : option (list PairTuple)
}.

Section Main.
Context {L : StatsLib}.
Variable config : Config.

Definition main_from_closes (closes : DataFrame) (sched : list nat)
  : result Run :=
  let shape :=
    Logged (INFO, ("Aligned data shape: " ++ shape_str closes)%string) in
  if Z.of_nat (List.length (columns closes)) <? 2 then
    Returned {|
      events := [shape; Logged (ERROR, "Insufficient data for pair analysis")];
      scheduled := [];
      all_pairs_kept := None |}
  else
    r <- analyze_pairs config closes sched ;;
    let '(all_pairs, top_pairs) := r in
    match top_pairs with
    | [] =>
        Returned {|
          events := [shape; Logged (ERROR, "No cointegrated pairs found")];
          scheduled := combinations (columns closes);
          all_pairs_kept := None |}
    | _ :: _ =>
        let output := map csv_row top_pairs in
        Returned {|
          events :=
            [shape;
             ToCsv (output_file config) output;
             Logged (INFO,
                     ("Saved " ++ str_int (Z.of_nat (List.length top_pairs))
                      ++ " pairs to " ++ output_file config)%string)];
          scheduled := combinations (columns closes);
          all_pairs_kept := Some all_pairs |}
    end.

End Main.

(** ** The lookup loop *)

Definition lookup_prompt : string :=
  (nl ++ "Enter asset symbol (without USDT, e.g., BTC), 'list' to show all unique pairs, or 'x' to exit: ")%string.

(** The list comprehension [matching_pairs]. *)
Definition matching_pairs (all_pairs : list PairTuple)
  (selected_input : string) : list PairTuple :=
  filter
    (fun pair =>
       String.eqb (split_head "/" (leg0 pair)) selected_input
       || String.eqb (split_head "/" (leg1 pair)) selected_input)
    all_pairs.

(** One turn of [while True]: the events, and whether the loop goes on. *)
Definition lookup_step (all_pairs : list PairTuple) (raw : string)
  : list Event * bool :=
  let selected_input := upper (strip raw) in
  if String.eqb selected_input "X" then
    ([Asked lookup_prompt; Cleared; Printed "Exiting lookup."], false)
  else if String.eqb selected_input "LIST" then
    (Asked lookup_prompt :: Cleared
     :: Printed (nl ++ "All unique cointegrated pairs:")%string
     :: map (fun pair => Printed (query_line pair)) all_pairs, true)
  else
    let matching := matching_pairs all_pairs selected_input in
    match matching with
    | _ :: _ =>
        (Asked lookup_prompt :: Cleared
         :: Printed (nl ++ "Cointegrated pairs containing " ++ selected_input
                     ++ ":")%string
         :: map (fun pair => Printed (query_line pair)) matching, true)
    | [] =>
        ([Asked lookup_prompt; Cleared;
          Printed (nl ++ "No cointegrated pairs found for asset "
                   ++ selected_input
                   ++ ". Please try another asset or press 'x' to exit.")%string],
         true)
    end.

(** The loop over the lines typed in; [input] raises [EOFError] when
    there is none left. *)
Fixpoint lookup_loop (all_pairs : list PairTuple) (inputs : list string)
  : result (list Event) :=
  match inputs with
  | [] => Raised (Exception "EOFError")
  | raw :: rest =>
      let (evs, continue) := lookup_step all_pairs raw in
      if continue then
        more <- lookup_loop all_pairs rest ;;
        Returned (evs ++ more)%list
      else Returned evs
  end.

End App.

(* ================================================================== *)
(** * The design document's wording *)

Module Design.
Import PyFloat PyStr PyList Engine.

(** Non-decreasing by p-value. *)
Definition pval_le (a b : PairTuple) : Prop := le (pval a) (pval b) = true.

(** The pairs whose p-value equals [k]. *)
Definition ties (k : float) (l : list PairTuple) : list PairTuple :=
  filter (fun r => eq (pval r) k) l.

(** [sorted] is [original] sorted ascending by p-value by a stable sort:
    it is sorted, holds the same pairs, and pairs with equal p-values
    keep the relative order they have in [original]. *)
Definition stable_sort_of (sorted original : list PairTuple) : Prop :=
  Sorted pval_le sorted /\
  Permutation sorted original /\
  forall k, ties k sorted = ties k original.

Section Screen.
Context {L : StatsLib}.
Variable config : Config.
Variable closes : DataFrame.

(** Steps 2 and 3 of the screening engine for one pair: the test is
    run on the two columns; the pair is kept when the test gave a
    result and the p-value is below the threshold. *)
Definition screen_pair (pr : string * string) : option PairTuple :=
  match getitem closes (fst pr), getitem closes (snd pr) with
  | Returned s1, Returned s2 =>
      match calculate_cointegration config s1 s2 with
      | Returned (_, Some d) =>
          if lt (pvalue d) (coint_threshold config)
          then Some {| leg0 := fst pr; leg1 := snd pr;
                       pval := pvalue d; stat := score d |}
          else None
      | _ => None
      end
  | _, _ => None
  end.

Definition passing (pairs : list (string * string)) : list PairTuple :=
  flat_map (fun pr => match screen_pair pr with
                      | Some t => [t]
                      | None => []
                      end) pairs.

(** Step 1: all pairs in the matrix's column order. *)
Definition enumeration : list (string * string) :=
  combinations (columns closes).

(** The passing pairs in enumeration order. *)
Definition passing_enumerated : list PairTuple := passing enumeration.

(** The passing pairs in the order their jobs finished. *)
Definition passing_completed (sched : list nat) : list PairTuple :=
  passing (as_completed sched enumeration).

(** The job of a pair, as a function of the pair. *)
Definition job (pr : string * string)
  : result (list LogRecord * option CointDict) :=
  match getitem closes (fst pr), getitem closes (snd pr) with
  | Returned s1, Returned s2 => calculate_cointegration config s1 s2
  | _, _ => Returned ([], None)
  end.

(** The library's test raises on the pair's columns. *)
Definition test_raises (pr : string * string) : bool :=
  match getitem closes (fst pr), getitem closes (snd pr) with
  | Returned s1, Returned s2 =>
      match coint s1 s2 BIC with
      | Raised _ => true
      | Returned _ => false
      end
  | _, _ => false
  end.

(** A series the cointegration tester does not accept: too short, or
    of (approximately) zero variance. *)
Definition ineligible (s : Series) : Prop :=
  len s < min_data_points config \/
  np_isclose (series_var s) zero = true.

End Screen.

(** No two pairs of the list have equal p-values. *)
Definition no_ties (l : list PairTuple) : Prop :=
  ForallOrdPairs (fun a b => eq (pval a) (pval b) = false) l.

(** Equality of two strings up to letter case. *)
Definition equal_ignoring_case (a b : string) : bool :=
  String.eqb (upper a) (upper b).

(** A symbol with its quote-currency suffix stripped. *)
Definition symbol_root (symbol : string) : string := split_head "/" symbol.

(** [findBySymbol(root)] as the document words it. *)
Definition findBySymbol (root : string) (ranked : list PairTuple)
  : list PairTuple :=
  filter
    (fun r => equal_ignoring_case (symbol_root (leg0 r)) root
              || equal_ignoring_case (symbol_root (leg1 r)) root)
    ranked.

(** A string without lower-case letters. *)
Definition is_upper (s : string) : Prop := upper s = s.

End Design.

(* ================================================================== *)
(** * Data for examples *)

Module Sample.
Import PyFloat PyStr PyList Engine App.

(** A stand-in for the numerical libraries, to run the model on small
    data: the variance is 0 for a series that repeats its first value
    and 1 otherwise; two floats are close when they are equal; the test
    fails on a series that starts with NaN and otherwise reports the
    first value of the first series as the statistic and, as the
    p-value, the binary64 product of the second value of the first
    series and the first value of the second series. *)
Definition sample_var (s : Series) : float :=
  match s with
  | [] => S754_nan
  | x :: t => if forallb (fun y => eq y x) t then zero else f_1
  end.

Definition sample_coint (s1 s2 : Series) (_ : autolag)
  : result (float * float * list float) :=
  match s1, s2 with
  | x :: x' :: _, y :: _ =>
      if isnan x then Raised (Exception "SVD did not converge")
      else Returned (x, SFmul 53 1024 x' y, [])
  | _, _ => Raised (Exception "zero-size array")
  end.

Definition sample_lib : StatsLib := {|
  series_var := sample_var;
  np_isclose := eq;
  coint := sample_coint
|}.

(** As [sample_lib], but the test answers as [statsmodels] does for two
    (almost) perfectly collinear series: statistic [-inf], p-value 0. *)
Definition collinear_lib : StatsLib := {|
  series_var := sample_var;
  np_isclose := eq;
  coint := fun _ _ _ => Returned (f_ninf, zero, [])
|}.

(** [Config(min_data_points=2)], and a configuration with one field
    replaced. *)
Definition small_config : Config := {|
  timeframe := "4h";
  days := 90;
  coint_threshold := f_0_05;
  market_type := "future";
  output_file := "pairs_to_trade.csv";
  min_open_interest := min_open_interest default_config;
  min_volume := min_volume default_config;
  enable_volume_filter := false;
  enable_open_interest_filter := false;
  top_n_pairs := 10;
  max_workers := 8;
  min_data_points := 2;
  rate_limit_sleep := rate_limit_sleep default_config
|}.

Definition with_max_workers (w : positive) (c : Config) : Config := {|
  timeframe := timeframe c;
  days := days c;
  coint_threshold := coint_threshold c;
  market_type := market_type c;
  output_file := output_file c;
  min_open_interest := min_open_interest c;
  min_volume := min_volume c;
  enable_volume_filter := enable_volume_filter c;
  enable_open_interest_filter := enable_open_interest_filter c;
  top_n_pairs := top_n_pairs c;
  max_workers := w;
  min_data_points := min_data_points c;
  rate_limit_sleep := rate_limit_sleep c
|}.

Definition with_top_n (k : Z) (c : Config) : Config := {|
  timeframe := timeframe c;
  days := days c;
  coint_threshold := coint_threshold c;
  market_type := market_type c;
  output_file := output_file c;
  min_open_interest := min_open_interest c;
  min_volume := min_volume c;
  enable_volume_filter := enable_volume_filter c;
  enable_open_interest_filter := enable_open_interest_filter c;
  top_n_pairs := k;
  max_workers := max_workers c;
  min_data_points := min_data_points c;
  rate_limit_sleep := rate_limit_sleep c
|}.

(** Three columns; the three pairs have the same p-value 0.03125. *)
Definition closes3 : DataFrame := {|
  index := [0; 14400000];
  data := [("BTC/USDT:USDT", [f_m3_5; f_1]);
           ("ETH/USDT:USDT", [f_0_03125; f_1]);
           ("SOL/USDT:USDT", [f_0_03125; f_0_5])]
|}.

(** Four columns, one of them constant; the three pairs of the others
    have the p-values 2^-5, 2^-7 and 2^-8, in enumeration order. *)
Definition closes4 : DataFrame := {|
  index := [0; 14400000];
  data := [("BTC/USDT:USDT", [f_m3_5; f_1]);
           ("ETH/USDT:USDT", [f_0_03125; f_0_5]);
           ("USDC/USDT:USDT", [f_1; f_1]);
           ("SOL/USDT:USDT", [S754_finite false 4503599627370496 (-59); f_0_5])]
|}.

Definition closes1 : DataFrame := {|
  index := [0; 14400000];
  data := [("BTC/USDT:USDT", [f_m3_5; f_1])]
|}.

Definition closes2 : DataFrame := {|
  index := [0; 14400000];
  data := [("BTC/USDT:USDT", [f_0_5; f_1]);
           ("ETH/USDT:USDT", [f_0_03125; f_0_0625])]
|}.

(** A ranking with one pair whose first symbol is written in lower
    case, and one with upper-case symbols. *)
Definition ranked_lower : list PairTuple :=
  [{| leg0 := "btc/USDT:USDT"; leg1 := "ETH/USDT:USDT";
      pval := f_0_03125; stat := f_m3_5 |}].

Definition ranked_upper : list PairTuple :=
  [{| leg0 := "BTC/USDT:USDT"; leg1 := "ETH/USDT:USDT";
      pval := f_0_03125; stat := f_m3_5 |};
   {| leg0 := "ETH/USDT:USDT"; leg1 := "SOL/USDT:USDT";
      pval := f_0_03125; stat := f_1 |}].

End Sample.

(* ================================================================== *)
(** * More of the program: the price matrix *)

Module Frame.
Import PyFloat PyStr PyList Engine App.

(** A series holds a missing value. *)
Definition has_na (s : Series) : bool := existsb isnan s.

(** [df.dropna(axis=1, how='any')]: the columns without a missing value,
    in their order, on the same index. *)
Definition dropna_columns (df : DataFrame) : DataFrame := {|
  index := index df;
  data := filter (fun c => negb (has_na (snd c))) (data df)
|}.

Section Main.
Context {L : StatsLib}.
Variable config : Config.

(** [main] from the frame built of the fetched close prices on: the
    columns with a missing value are dropped, then the run goes on as
    [main_from_closes]. *)
Definition main_from_frame (frame : DataFrame) (sched : list nat)
  : result Run :=
  let closes := dropna_columns frame in
  main_from_closes config closes sched.

End Main.

(** The configuration with another [coint_threshold]. *)
Definition with_threshold (thr : float) (c : Config) : Config := {|
  timeframe := timeframe c;
  days := days c;
  coint_threshold := thr;
  market_type := market_type c;
  output_file := output_file c;
  min_open_interest := min_open_interest c;
  min_volume := min_volume c;
  enable_volume_filter := enable_volume_filter c;
  enable_open_interest_filter := enable_open_interest_filter c;
  top_n_pairs := top_n_pairs c;
  max_workers := max_workers c;
  min_data_points := min_data_points c;
  rate_limit_sleep := rate_limit_sleep c
|}.

(** The pair of symbols of a tuple. *)
Definition legs (t : PairTuple) : string * string := (leg0 t, leg1 t).

(** The events of a run that write the file. *)
Definition is_csv (e : Event) : bool :=
  match e with ToCsv _ _ => true | _ => false end.

(** The line typed in is the command to leave the lookup loop. *)
Definition is_exit_line (raw : string) : bool :=
  String.eqb (upper (strip raw)) "X".

End Frame.

Module SampleFrame.
Import PyFloat Engine Sample Frame.

(** As [closes4], with a column that misses a value. *)
Definition frame5 : DataFrame := {|
  index := [0; 14400000];
  data := [("BTC/USDT:USDT", [f_m3_5; f_1]);
           ("NEW/USDT:USDT", [S754_nan; f_0_5]);
           ("ETH/USDT:USDT", [f_0_03125; f_0_5]);
           ("USDC/USDT:USDT", [f_1; f_1]);
           ("SOL/USDT:USDT", [S754_finite false 4503599627370496 (-59); f_0_5])]
|}.

End SampleFrame.

(* ================================================================== *)
(** * More of the program: the markets *)

Module Fetcher.
Import PyFloat PyStr PyList Engine.

(** ** Replies of the exchange *)

(** A value of a decoded JSON reply. *)
#[local] Unset Elimination Schemes.
Inductive pyval : Type :=
| PNone
| PBool (b : bool)
| PInt (n : Z)
| PFloat (f : float)
| PStr (s : string)
| PList (items : list pyval)
| PDict (items : list (string * pyval)).
#[local] Set Elimination Schemes.

Fixpoint dict_get (items : list (string * pyval)) (k : string)
  : option pyval :=
  match items with
  | [] => None
  | (k', v) :: rest => if String.eqb k' k then Some v else dict_get rest k
  end.

(** [v[k]] for a string [k]. *)
Definition subscript (v : pyval) (k : string) : result pyval :=
  match v with
  | PDict items =>
      match dict_get items k with
      | Some x => Returned x
      | None => Raised (Exception ("KeyError: " ++ k)%string)
      end
  | _ => Raised (Exception "TypeError")
  end.

Fixpoint is_substring (k s : string) : bool :=
  match s with
  | EmptyString => String.prefix k EmptyString
  | String _ s' => String.prefix k s || is_substring k s'
  end.

(** [k in v] for a string [k]. *)
Definition contains (v : pyval) (k : string) : result bool :=
  match v with
  | PDict items =>
      Returned (match dict_get items k with Some _ => true | None => false end)
  | PStr s => Returned (is_substring k s)
  | PList items =>
      Returned (existsb (fun x => match x with
                                  | PStr s => String.eqb s k
                                  | _ => false
                                  end) items)
  | PNone | PBool _ | PInt _ | PFloat _ => Raised (Exception "TypeError")
  end.

(** [isinstance(v, dict)] *)
Definition is_dict (v : pyval) : bool :=
  match v with PDict _ => true | _ => false end.

(** A market of [exchange.load_markets()]: the keys [main] and the
    fetcher read, which every market of the library's list has ([linear]
    and [active] by their truth value), and [openInterest], which the
    program adds. *)
Record Market : Type := mkMarket {
  id : string;
  symbol : string;
  quote : string;
  linear : bool;
  active : bool;
  openInterest : option float
}.

(** [market['openInterest'] = oi] *)
Definition set_openInterest (m : Market) (oi : float) : Market := {|
  id := id m;
  symbol := symbol m;
  quote := quote m;
  linear := linear m;
  active := active m;
  openInterest := Some oi
|}.

(** The exchange and the built-ins applied to its replies.  A call
    answers or raises, and leaves the remote side in a new state, so that
    two calls need not answer alike. *)
Class Exchange : Type := {
  remote : Type;
  fapiPublic_getTickerDaily : string -> remote -> result pyval * remote;
  fetch_ticker : string -> remote -> result pyval * remote;
  fapiPublicGetOpenInterest : string -> remote -> result pyval * remote;
  exchange_load_markets : remote -> result (list Market) * remote;
  (** [float(v)] *)
  py_float : pyval -> result float;
  (** [str(v)] in an f-string *)
  py_str : pyval -> string
}.

Section Methods.
Context {X : Exchange}.

(** ** Code that talks to the exchange and logs

    A computation takes the state of the remote side and gives its
    outcome, the records it logged and the new state.  (Waiting,
    [asyncio.sleep], is not modelled.) *)
Definition IO (A : Type) : Type :=
  remote -> result A * list LogRecord * remote.

Definition ret {A : Type} (a : A) : IO A := fun r => (Returned a, [], r).

Definition lift {A : Type} (c : result A) : IO A := fun r => (c, [], r).

Definition call {A : Type} (f : remote -> result A * remote) : IO A :=
  fun r => let (a, r') := f r in (a, [], r').

Definition log (lvl : level) (msg : string) : IO unit :=
  fun r => (Returned tt, [(lvl, msg)], r).

Definition then_ {A B : Type} (c : IO A) (k : A -> IO B) : IO B :=
  fun r =>
    match c r with
    | (Returned a, logged, r') =>
        let '(b, logged', r'') := k a r' in (b, (logged ++ logged')%list, r'')
    | (Raised e, logged, r') => (Raised e, logged, r')
    end.

(** [try: body except Exception as e: handler e] *)
Definition try_io {A : Type} (body : IO A) (handler : exn -> IO A) : IO A :=
  fun r =>
    match body r with
    | (Returned a, logged, r') => (Returned a, logged, r')
    | (Raised e, logged, r') =>
        let '(b, logged', r'') := handler e r' in
        (b, (logged ++ logged')%list, r'')
    end.

Notation "x <~ c ;; k" := (then_ c (fun x => k))
  (at level 61, c at next level, right associativity).
Notation "c ;;; k" := (then_ c (fun _ => k))
  (at level 61, right associativity).

(** ** [MarketDataFetcher.get_futures_volume] *)
Definition get_futures_volume (symbol : string) : IO float :=
  try_io
    (ticker <~ call (fapiPublic_getTickerDaily symbol) ;;
     volume <~ lift (subscript ticker "quoteVolume") ;;
     lift (py_float volume))
    (fun e =>
       try_io
         (ticker <~ call (fetch_ticker symbol) ;;
          volume <~ lift (subscript ticker "quoteVolume") ;;
          lift (py_float volume))
         (fun e2 =>
            log ERROR ("Error fetching volume for " ++ symbol ++ ": "
                       ++ exn_msg e2)%string ;;;
            ret zero)).

(** ** [MarketDataFetcher.get_open_interest] *)
Definition get_open_interest (symbol : string) : IO float :=
  try_io
    (response <~ call (fapiPublicGetOpenInterest symbol) ;;
     has <~ (if is_dict response
             then lift (contains response "openInterest")
             else ret false) ;;
     if has : bool then
       oi <~ lift (subscript response "openInterest") ;;
       lift (py_float oi)
     else
       log WARNING ("Unexpected open interest response for " ++ symbol
                    ++ ": " ++ py_str response)%string ;;;
       ret zero)
    (fun e =>
       log ERROR ("Error fetching open interest for " ++ symbol ++ ": "
                  ++ exn_msg e)%string ;;;
       try_io
         (ticker <~ call (fetch_ticker symbol) ;;
          has_info <~ lift (contains ticker "info") ;;
          if has_info : bool then
            info <~ lift (subscript ticker "info") ;;
            has <~ lift (contains info "openInterest") ;;
            if has : bool then
              oi <~ lift (subscript info "openInterest") ;;
              lift (py_float oi)
            else ret zero
          else ret zero)
         (fun e2 =>
            log ERROR ("Backup method for open interest failed for "
                       ++ symbol ++ ": " ++ exn_msg e2)%string ;;;
            ret zero)).

(** ** [MarketDataFetcher.load_markets] *)

(** The loop over [markets.values()], [valid_markets] being built. *)
Fixpoint load_markets_loop (markets : list Market) (valid_markets : list Market)
  : IO (list Market) :=
  match markets with
  | [] => ret valid_markets
  | market :: rest =>
      if String.eqb (quote market) "USDT" && linear market && active market
      then
        valid <~ try_io
                   (oi <~ get_open_interest (id market) ;;
                    if lt zero oi
                    then ret (valid_markets
                              ++ [set_openInterest market oi])%list
                    else ret valid_markets)
                   (fun e =>
                      log ERROR ("Error checking market " ++ id market
                                 ++ ": " ++ exn_msg e)%string ;;;
                      ret valid_markets) ;;
        load_markets_loop rest valid
      else load_markets_loop rest valid_markets
  end.

Definition load_markets : IO (list Market) :=
  try_io
    (markets <~ call exchange_load_markets ;;
     load_markets_loop markets [])
    (fun e =>
       log ERROR ("Error loading markets: " ++ exn_msg e)%string ;;;
       ret []).

(** ** The liquidity filters of [main] *)

Definition fourteen : float := S754_finite false 7881299347898368 (-49).

(** The volume test of one turn of the loop: [passes_volume]. *)
Definition volume_check (config : Config) (market : Market) : IO bool :=
  if enable_volume_filter config then
    vol <~ get_futures_volume (id market) ;;
    if le vol (SFdiv 53 1024 (min_volume config) fourteen)
    then ret false else ret true
  else ret true.

(** The open-interest test of one turn: the market, with [openInterest]
    written when it passes, and [passes_oi]. *)
Definition interest_check (config : Config) (market : Market)
  : IO (Market * bool) :=
  if enable_open_interest_filter config then
    oi <~ get_open_interest (id market) ;;
    if lt (min_open_interest config) oi
    then ret (set_openInterest market oi, true)
    else ret (market, false)
  else ret (market, true).

(** The loop over [markets], [filtered] being built. *)
Fixpoint liquidity_loop (config : Config) (markets : list Market)
  (filtered : list Market) : IO (list Market) :=
  match markets with
  | [] => ret filtered
  | market :: rest =>
      passes_volume <~ volume_check config market ;;
      checked <~ interest_check config market ;;
      let '(market', passes_oi) := checked in
      liquidity_loop config rest
        (if (passes_volume : bool) && passes_oi
         then (filtered ++ [market'])%list else filtered)
  end.

Definition liquidity_filter (config : Config) (markets : list Market)
  : IO (list Market) :=
  if enable_volume_filter config || enable_open_interest_filter config
  then liquidity_loop config markets []
  else ret markets.

(** ** The start of [main]: the markets whose prices are fetched

    [None] stands for the early [return] of [main]. *)
Definition main_markets (config : Config) : IO (option (list Market)) :=
  markets <~ load_markets ;;
  log INFO ("Initial markets: "
            ++ str_int (Z.of_nat (List.length markets)))%string ;;;
  match markets with
  | [] => log ERROR "No markets found" ;;; ret None
  | _ :: _ =>
      filtered <~ liquidity_filter config markets ;;
      log INFO ("After liquidity filter: "
                ++ str_int (Z.of_nat (List.length filtered)))%string ;;;
      match filtered with
      | [] => log ERROR "No markets passed liquidity filter" ;;; ret None
      | _ :: _ => ret (Some filtered)
      end
  end.

End Methods.

(** The market is [m0] as the exchange listed it, or [m0] with the key
    [openInterest] written. *)
Definition same_listing (m m0 : Market) : Prop :=
  id m = id m0 /\ symbol m = symbol m0 /\ quote m = quote m0 /\
  linear m = linear m0 /\ active m = active m0.

(** The market is [m0] untouched, or [m0] with an open interest above
    the configured minimum written to it. *)
Definition kept_from (config : Config) (m m0 : Market) : Prop :=
  m = m0 \/
  exists oi, m = set_openInterest m0 oi
             /\ lt (min_open_interest config) oi = true.

(** ** The choice of filters at the prompt *)

Definition lower_char (c : ascii) : ascii :=
  let n := N_of_ascii c in
  if ((65 <=? n) && (n <=? 90))%N then ascii_of_N (n + 32) else c.

(** [s.lower()] *)
Fixpoint lower (s : string) : string :=
  match s with
  | EmptyString => EmptyString
  | String c s' => String (lower_char c) (lower s')
  end.

Definition with_filters (volume interest : bool) (c : Config) : Config := {|
  timeframe := timeframe c;
  days := days c;
  coint_threshold := coint_threshold c;
  market_type := market_type c;
  output_file := output_file c;
  min_open_interest := min_open_interest c;
  min_volume := min_volume c;
  enable_volume_filter := volume;
  enable_open_interest_filter := interest;
  top_n_pairs := top_n_pairs c;
  max_workers := max_workers c;
  min_data_points := min_data_points c;
  rate_limit_sleep := rate_limit_sleep c
|}.

(** The [if]/[elif] chain on [filter_choice], for the line typed in. *)
Definition choose_filters (raw : string) (config : Config) : Config :=
  let filter_choice := lower (strip raw) in
  if String.eqb filter_choice "v" then with_filters true false config
  else if String.eqb filter_choice "oi" then with_filters false true config
  else if String.eqb filter_choice "b" || String.eqb filter_choice "y"
  then with_filters true true config
  else with_filters false false config.

End Fetcher.

Module SampleExchange.
Import PyFloat Engine Fetcher Sample.

Definition f_60e6 : float := S754_finite false 8053063680000000 (-27).
Definition f_2e9 : float := S754_finite false 8388608000000000 (-22).

(** A stand-in for the exchange: its state counts the calls made.  The
    daily-ticker endpoint is not available; [DEADUSDT] is known to no
    endpoint; the other symbols have the quote volume 2e9 and the open
    interest 6e7. *)
Definition sample_ticker : pyval :=
  PDict [("symbol", PStr "BTC/USDT:USDT");
         ("quoteVolume", PFloat f_2e9);
         ("info", PDict [("openInterest", PFloat f_60e6)])].

Definition sample_markets : list Market :=
  [{| id := "BTCUSDT"; symbol := "BTC/USDT:USDT"; quote := "USDT";
      linear := true; active := true; openInterest := None |};
   {| id := "DEADUSDT"; symbol := "DEAD/USDT:USDT"; quote := "USDT";
      linear := true; active := true; openInterest := None |};
   {| id := "ETHBUSD"; symbol := "ETH/BUSD:BUSD"; quote := "BUSD";
      linear := true; active := true; openInterest := None |};
   {| id := "ETHUSDT"; symbol := "ETH/USDT:USDT"; quote := "USDT";
      linear := true; active := true; openInterest := None |}].

Definition sample_exchange : Exchange := {|
  remote := nat;
  fapiPublic_getTickerDaily := fun _ r =>
    (Raised (Exception "binance has no fapiPublic_getTickerDaily"), S r);
  fetch_ticker := fun s r =>
    if String.eqb s "DEADUSDT"
    then (Raised (Exception "BadSymbol"), S r)
    else (Returned sample_ticker, S r);
  fapiPublicGetOpenInterest := fun s r =>
    if String.eqb s "DEADUSDT"
    then (Raised (Exception "BadSymbol"), S r)
    else (Returned (PDict [("symbol", PStr s);
                           ("openInterest", PFloat f_60e6)]), S r);
  exchange_load_markets := fun r => (Returned sample_markets, S r);
  py_float := fun v =>
    match v with
    | PFloat f => Returned f
    | _ => Raised (Exception "ValueError")
    end;
  py_str := fun _ => "{...}"
|}.

(** [Config()] with both liquidity filters switched on. *)
Definition both_filters : Config := {|
  timeframe := timeframe default_config;
  days := days default_config;
  coint_threshold := coint_threshold default_config;
  market_type := market_type default_config;
  output_file := output_file default_config;
  min_open_interest := min_open_interest default_config;
  min_volume := min_volume default_config;
  enable_volume_filter := true;
  enable_open_interest_filter := true;
  top_n_pairs := top_n_pairs default_config;
  max_workers := max_workers default_config;
  min_data_points := min_data_points default_config;
  rate_limit_sleep := rate_limit_sleep default_config
|}.

End SampleExchange.


(* ================================================================== *)
(** * Facts about the float order *)

Module FloatFacts.
Import PyFloat.

Lemma compare_cont_Eq (m1 m2 : positive) :
  Pos.compare_cont Eq m1 m2 = Pos.compare m1 m2.
Proof. reflexivity. Qed.

Ltac cmp_step :=
  match goal with
  | |- context [Z.compare ?a ?b] =>
      let H := fresh in destruct (Z.compare_spec a b) as [H|H|H]
  | H : context [Z.compare ?a ?b] |- _ =>
      let H' := fresh in destruct (Z.compare_spec a b) as [H'|H'|H']
  | |- context [Pos.compare ?a ?b] =>
      let H := fresh in destruct (Pos.compare_spec a b) as [H|H|H]
  | H : context [Pos.compare ?a ?b] |- _ =>
      let H' := fresh in destruct (Pos.compare_spec a b) as [H'|H'|H']
  end.

Ltac cmp_crush :=
  cbn [SFcompare lt le eq SFltb SFleb SFeqb isnan CompOpp negb andb] in *;
  rewrite ?compare_cont_Eq in *;
  try congruence; try lia;
  try (cmp_step; cmp_crush).

Ltac float_cases :=
  intros;
  repeat match goal with
    | x : float |- _ => destruct x as [[]|[]| |[] ? ?]
    | x : spec_float |- _ => destruct x as [[]|[]| |[] ? ?]
    end;
  cmp_crush.

(** [a < b] is false whenever one side is NaN. *)
Lemma lt_not_nan (a b : float) :
  lt a b = true -> isnan a = false /\ isnan b = false.
Proof. unfold lt, SFltb. destruct a, b; cbn; intros; auto; discriminate. Qed.

Lemma le_not_nan (a b : float) :
  le a b = true -> isnan a = false /\ isnan b = false.
Proof. unfold le, SFleb. destruct a, b; cbn; intros; auto; discriminate. Qed.

Lemma lt_irrefl (a : float) : lt a a = false.
Proof. float_cases. Qed.

Lemma lt_trans (a b c : float) :
  lt a b = true -> lt b c = true -> lt a c = true.
Proof. float_cases. Qed.

(** On numbers, "not less" is transitive. *)
Lemma nlt_trans (a b c : float) :
  isnan a = false -> isnan b = false -> isnan c = false ->
  lt a b = false -> lt b c = false -> lt a c = false.
Proof. float_cases. Qed.

Lemma le_nlt (a b : float) :
  isnan a = false -> isnan b = false -> le a b = negb (lt b a).
Proof. float_cases. Qed.

Lemma eq_nlt (a b : float) :
  isnan a = false -> isnan b = false ->
  eq a b = negb (lt a b) && negb (lt b a).
Proof. float_cases. Qed.

Lemma eq_nan_r (a b : float) : isnan b = true -> eq a b = false.
Proof. destruct a, b; cbn; intros; auto; discriminate. Qed.

Lemma eq_nan_l (a b : float) : isnan a = true -> eq a b = false.
Proof. destruct a, b; cbn; intros; auto; discriminate. Qed.

Lemma le_trans (a b c : float) :
  le a b = true -> le b c = true -> le a c = true.
Proof. float_cases. Qed.

End FloatFacts.

(* ================================================================== *)
(** * Facts about [sort_by] *)

Module SortFacts.
Import PyList.

Section Facts.
Context {A K : Type}.
Variable key : A -> K.
Variable ltk : K -> K -> bool.

(** The keys on which [ltk] is a strict weak order. *)
Variable ok : K -> Prop.
Hypothesis ltk_irrefl : forall a, ok a -> ltk a a = false.
Hypothesis ltk_trans : forall a b c, ok a -> ok b -> ok c ->
  ltk a b = true -> ltk b c = true -> ltk a c = true.
Hypothesis nltk_trans : forall a b c, ok a -> ok b -> ok c ->
  ltk a b = false -> ltk b c = false -> ltk a c = false.

Local Abbreviation ins := (insert_right K key ltk).
Local Abbreviation sort := (sort_by K key ltk).
Local Abbreviation before := (not_after K key ltk).
Local Abbreviation same := (same_key K key ltk).
Local Abbreviation strict := (strictly_before K key ltk).
Local Abbreviation oks := (Forall (fun x => ok (key x))).

Lemma ltk_asym a b : ok a -> ok b -> ltk a b = true -> ltk b a = false.
Proof.
  intros Ha Hb Hab. destruct (ltk b a) eqn:Hba; trivial.
  rewrite <- (ltk_irrefl a Ha). symmetry. now apply ltk_trans with b.
Qed.

Lemma insert_right_perm x l : Permutation (ins x l) (x :: l).
Proof.
  induction l as [|y l IH]; cbn; [reflexivity|].
  destruct (ltk (key x) (key y)); [reflexivity|].
  rewrite IH. apply perm_swap.
Qed.

Lemma fold_insert_perm l : forall acc,
  Permutation (fold_left (fun acc x => ins x acc) l acc) (acc ++ l).
Proof.
  induction l as [|x l IH]; intros acc; cbn.
  - now rewrite app_nil_r.
  - rewrite IH, insert_right_perm. apply Permutation_middle.
Qed.

Lemma sort_by_perm l : Permutation (sort l) l.
Proof. unfold sort_by. apply (fold_insert_perm l []). Qed.

Lemma insert_right_sorted x l :
  ok (key x) -> oks l ->
  StronglySorted before l -> StronglySorted before (ins x l).
Proof.
  intros Hx Hl Hs. induction Hs as [|y l Hs IH Hy]; cbn.
  - repeat constructor.
  - inversion Hl as [|? ? Hky Hl']; subst.
    destruct (ltk (key x) (key y)) eqn:Hxy.
    + constructor; [now constructor|].
      constructor; [now apply ltk_asym|].
      rewrite Forall_forall in *. intros z Hz.
      unfold not_after in *.
      destruct (ltk (key z) (key x)) eqn:Hzx; trivial.
      rewrite <- (Hy z Hz). symmetry.
      apply ltk_trans with (key x); auto.
    + constructor; [now apply IH|].
      apply Permutation_Forall with (x :: l).
      * symmetry. apply insert_right_perm.
      * constructor; [exact Hxy | exact Hy].
Qed.

Lemma fold_insert_sorted l : forall acc,
  oks acc -> oks l -> StronglySorted before acc ->
  StronglySorted before (fold_left (fun acc x => ins x acc) l acc).
Proof.
  induction l as [|x l IH]; intros acc Hacc Hl Hs; cbn; trivial.
  inversion Hl; subst. apply IH; trivial.
  - apply Permutation_Forall with (x :: acc).
    + symmetry. apply insert_right_perm.
    + now constructor.
  - now apply insert_right_sorted.
Qed.

(** The result of the sort is in non-decreasing key order. *)
Lemma sort_by_sorted l : oks l -> StronglySorted before (sort l).
Proof.
  intros Hl. apply fold_insert_sorted; trivial; constructor.
Qed.

Lemma insert_right_same k x l :
  ok k -> ok (key x) -> oks l -> StronglySorted before l ->
  filter (same k) (ins x l) =
  filter (same k) l ++ (if same k x then [x] else []).
Proof.
  intros Hk Hx Hl Hs. induction Hs as [|y l Hs IH Hy]; cbn.
  - destruct (same k x); reflexivity.
  - inversion Hl as [|? ? Hky Hl']; subst.
    destruct (ltk (key x) (key y)) eqn:Hxy; cbn.
    + destruct (same k x) eqn:Hsx; [|now rewrite app_nil_r].
      assert (Hnone : forall z, In z (y :: l) -> same k z = false).
      { intros z Hz.
        assert (Hxz : ltk (key x) (key z) = true).
        { destruct Hz as [<-|Hz]; trivial.
          rewrite Forall_forall in Hy, Hl'.
          specialize (Hy z Hz). unfold not_after in Hy.
          destruct (ltk (key x) (key z)) eqn:E; trivial.
          rewrite <- Hxy. symmetry.
          apply nltk_trans with (key z); auto. }
        assert (Hkz : ok (key z)).
        { destruct Hz as [<-|Hz]; trivial.
          rewrite Forall_forall in Hl'. auto. }
        unfold same_key in *.
        apply andb_true_iff in Hsx as [H1 H2].
        apply negb_true_iff in H1, H2.
        destruct (ltk (key z) k) eqn:E1; cbn; trivial.
        destruct (ltk k (key z)) eqn:E2; cbn; trivial.
        assert (ltk (key x) (key z) = false)
          by (apply nltk_trans with k; auto).
        congruence. }
      assert (Hnil : filter (same k) (y :: l) = []).
      { generalize Hnone. generalize (y :: l).
        intros l0 H0. induction l0 as [|z l0 IH0]; cbn; trivial.
        rewrite (H0 z (or_introl Logic.eq_refl)).
        apply IH0. intros; apply H0; now right. }
      cbn in Hnil. rewrite Hnil. reflexivity.
    + rewrite (IH Hl').
      destruct (same k y); reflexivity.
Qed.

Lemma fold_insert_same k l : forall acc,
  ok k -> oks acc -> oks l -> StronglySorted before acc ->
  filter (same k) (fold_left (fun acc x => ins x acc) l acc) =
  filter (same k) acc ++ filter (same k) l.
Proof.
  induction l as [|x l IH]; intros acc Hk Hacc Hl Hs; cbn.
  - now rewrite app_nil_r.
  - inversion Hl; subst. rewrite IH; trivial.
    + rewrite insert_right_same by trivial.
      rewrite <- app_assoc. f_equal.
      destruct (same k x); reflexivity.
    + apply Permutation_Forall with (x :: acc).
      * symmetry. apply insert_right_perm.
      * now constructor.
    + now apply insert_right_sorted.
Qed.

(** The sort is stable: the elements of one key class keep their
    order. *)
Lemma sort_by_stable k l :
  ok k -> oks l -> filter (same k) (sort l) = filter (same k) l.
Proof.
  intros Hk Hl. unfold sort_by.
  rewrite fold_insert_same; trivial; constructor.
Qed.

(** Two lists in strictly increasing key order with the same elements
    are equal. *)
Lemma strict_sorted_unique l1 : forall l2,
  oks l1 ->
  StronglySorted strict l1 -> StronglySorted strict l2 ->
  Permutation l1 l2 -> l1 = l2.
Proof.
  induction l1 as [|a l1 IH]; intros l2 Hok H1 H2 Hp.
  - apply Permutation_nil in Hp. now subst.
  - destruct l2 as [|b l2].
    { symmetry in Hp. apply Permutation_nil in Hp. discriminate. }
    inversion H1 as [|? ? H1' Ha]; subst.
    inversion H2 as [|? ? H2' Hb]; subst.
    inversion Hok as [|? ? Hka Hok']; subst.
    assert (Hokb : ok (key b)).
    { assert (In b (a :: l1)) as [<-|Hin].
      { apply Permutation_in with (b :: l2); [now symmetry|now left]. }
      - trivial.
      - rewrite Forall_forall in Hok'. auto. }
    assert (a = b) as <-.
    { assert (In a (b :: l2)) as [Hab|Hab]
        by (apply Permutation_in with (a :: l1); [trivial|now left]);
        [now subst|].
      assert (In b (a :: l1)) as [Hba|Hba]
        by (apply Permutation_in with (b :: l2);
            [now symmetry|now left]);
        [now subst|].
      rewrite Forall_forall in Ha, Hb.
      specialize (Ha b Hba). specialize (Hb a Hab).
      unfold strictly_before in *.
      rewrite (ltk_asym _ _ Hka Hokb Ha) in Hb. discriminate. }
    f_equal. apply IH; trivial.
    now apply Permutation_cons_inv with a.
Qed.

(** A sorted list without two elements of comparable-equal keys is
    strictly increasing. *)
Lemma sorted_distinct_strict l :
  StronglySorted before l ->
  ForallOrdPairs (fun x y => ltk (key x) (key y) = true
                             \/ ltk (key y) (key x) = true) l ->
  StronglySorted strict l.
Proof.
  intros Hs. induction Hs as [|x l Hs IH Hx]; intros Hd.
  - constructor.
  - inversion Hd as [|? ? Hxd Hd']; subst.
    constructor; [now apply IH|].
    rewrite Forall_forall in *. intros y Hy.
    specialize (Hx y Hy). unfold not_after in Hx.
    destruct (Hxd y Hy) as [H|H]; trivial.
    rewrite H in Hx. discriminate.
Qed.

End Facts.

Lemma ForallOrdPairs_perm {A : Type} (R : A -> A -> Prop) (l l' : list A) :
  (forall x y, R x y -> R y x) ->
  Permutation l l' -> ForallOrdPairs R l -> ForallOrdPairs R l'.
Proof.
  intros Hsym Hp. induction Hp as [|x l l' Hp IH|x y l|l l' l'' ? IH1 ? IH2];
    intros H; trivial.
  - inversion H; subst. constructor; [|now apply IH].
    now apply Permutation_Forall with l.
  - inversion H as [|? ? Hy Hr]; subst.
    inversion Hr as [|? ? Hx Hr']; subst.
    inversion Hy; subst.
    constructor; [constructor; auto|].
    now constructor.
  - auto.
Qed.

End SortFacts.

(* ================================================================== *)
(** * Facts about the engine *)

Module EngineFacts.
Import PyFloat PyStr PyList Engine App Design.

(** ** Enumeration and completion order *)

Lemma combinations_in {A : Type} (l : list A) (a b : A) :
  In (a, b) (combinations l) -> In a l /\ In b l.
Proof.
  induction l as [|x t IH]; cbn; [tauto|].
  rewrite in_app_iff, in_map_iff.
  intros [(y & Hy & Hin)|Hin].
  - inversion Hy; subst. auto.
  - destruct (IH Hin). auto.
Qed.

Lemma combinations_short {A : Type} (l : list A) :
  (List.length l < 2)%nat -> combinations l = [].
Proof.
  destruct l as [|x [|y t]]; cbn; trivial; lia.
Qed.

Lemma remove_nth_length {A : Type} (l : list A) : forall i f,
  nth_error l i = Some f ->
  List.length l = S (List.length (remove_nth i l)).
Proof.
  induction l as [|x t IH]; intros [|i] f H; cbn in *; try discriminate.
  - reflexivity.
  - f_equal. apply (IH i f H).
Qed.

Lemma remove_nth_perm {A : Type} (l : list A) : forall i f,
  nth_error l i = Some f -> Permutation l (f :: remove_nth i l).
Proof.
  induction l as [|x t IH]; intros [|i] f H; cbn in *; try discriminate.
  - inversion H; subst. reflexivity.
  - transitivity (x :: f :: remove_nth i t); [|apply perm_swap].
    constructor. apply (IH i f H).
Qed.

Lemma remove_nth_map {A B : Type} (g : A -> B) (l : list A) : forall i,
  remove_nth i (map g l) = map g (remove_nth i l).
Proof.
  induction l as [|x t IH]; intros [|i]; cbn; trivial.
  f_equal. apply (IH i).
Qed.

Lemma yield_order_perm {A : Type} (n : nat) : forall sched (pending : list A),
  List.length pending = n -> Permutation (yield_order n sched pending) pending.
Proof.
  induction n as [|n IH]; intros sched pending Hlen; cbn.
  - destruct pending; [reflexivity|discriminate].
  - destruct (nth_error pending _) as [f|] eqn:Hnth.
    + transitivity (f :: remove_nth (hd O sched mod List.length pending) pending).
      * constructor. apply IH.
        pose proof (remove_nth_length _ _ _ Hnth). lia.
      * symmetry. now apply remove_nth_perm.
    + apply nth_error_None in Hnth.
      pose proof (Nat.mod_upper_bound (hd O sched) (List.length pending)).
      lia.
Qed.

(** Every future is yielded once. *)
Lemma as_completed_perm {A : Type} (sched : list nat) (fs : list A) :
  Permutation (as_completed sched fs) fs.
Proof. now apply yield_order_perm. Qed.

Lemma yield_order_map {A B : Type} (g : A -> B) (n : nat) :
  forall sched (pending : list A),
  yield_order n sched (map g pending) = map g (yield_order n sched pending).
Proof.
  induction n as [|n IH]; intros sched pending; cbn; trivial.
  rewrite length_map, nth_error_map.
  destruct (nth_error pending _) as [f|]; cbn; trivial.
  now rewrite remove_nth_map, IH.
Qed.

Lemma as_completed_map {A B : Type} (g : A -> B) sched (fs : list A) :
  as_completed sched (map g fs) = map g (as_completed sched fs).
Proof. unfold as_completed. now rewrite length_map, yield_order_map. Qed.

Lemma yield_order_in_order {A : Type} (l : list A) :
  yield_order (List.length l) [] l = l.
Proof.
  induction l as [|x t IH]; cbn; trivial.
  rewrite Nat.sub_diag. cbn. now rewrite IH.
Qed.

(** The empty schedule completes the jobs in the order of submission. *)
Lemma as_completed_in_order {A : Type} (fs : list A) : as_completed [] fs = fs.
Proof. apply yield_order_in_order. Qed.

(** Every order of the futures is the yield of some schedule. *)
Lemma as_completed_any_order {A : Type} (order : list A) : forall fs,
  Permutation fs order -> exists sched, as_completed sched fs = order.
Proof.
  induction order as [|f rest IH]; intros fs Hp.
  - apply Permutation_sym, Permutation_nil in Hp. subst. now exists [].
  - assert (Hin : In f fs)
      by (apply Permutation_in with (f :: rest); [now symmetry|now left]).
    apply In_nth_error in Hin as [i Hi].
    assert (Hlt : (i < List.length fs)%nat)
      by (apply nth_error_Some; congruence).
    destruct (IH (remove_nth i fs)) as [sched Hs].
    { apply Permutation_cons_inv with f.
      transitivity fs; [|exact Hp].
      symmetry. now apply remove_nth_perm. }
    exists (i :: sched). unfold as_completed in *.
    pose proof (remove_nth_length _ _ _ Hi) as Hlen.
    rewrite Hlen. cbn. rewrite Nat.mod_small, Hi by exact Hlt.
    f_equal. exact Hs.
Qed.

Section WithLib.
Context {L : StatsLib}.
Variable config : Config.

(** ** The cointegration tester *)

Lemma calculate_cointegration_returns (s1 s2 : Series) :
  exists logged value,
    calculate_cointegration config s1 s2 = Returned (logged, value).
Proof.
  unfold calculate_cointegration.
  destruct (_ || _); [eauto|].
  destruct (_ || _); [eauto|].
  destruct (coint s1 s2 BIC) as [[[sc p] cv]|e]; cbn; eauto.
Qed.

Variable closes : DataFrame.

Lemma getitem_column (label : string) :
  In label (columns closes) -> exists s, getitem closes label = Returned s.
Proof.
  unfold columns, getitem. induction (data closes) as [|[l s] cols IH]; cbn.
  - tauto.
  - intros H. destruct (String.eqb l label) eqn:E; [eauto|].
    destruct H as [H|H]; [|auto].
    subst. now rewrite String.eqb_refl in E.
Qed.

Lemma job_returns (pr : string * string) :
  exists logged value, job config closes pr = Returned (logged, value).
Proof.
  unfold job.
  destruct (getitem closes (fst pr)); [|eauto].
  destruct (getitem closes (snd pr)); [|eauto].
  apply calculate_cointegration_returns.
Qed.

(** ** The pool *)

Lemma submit_all_eq (pairs : list (string * string)) :
  (forall pr, In pr pairs ->
              In (fst pr) (columns closes) /\ In (snd pr) (columns closes)) ->
  submit_all config closes pairs
  = Returned (map (fun pr => (pr, job config closes pr)) pairs).
Proof.
  induction pairs as [|pr rest IH]; intros Hin; cbn; trivial.
  destruct (Hin pr (or_introl Logic.eq_refl)) as [H1 H2].
  destruct (getitem_column _ H1) as [s1 E1].
  destruct (getitem_column _ H2) as [s2 E2].
  unfold job at 1. rewrite E1, E2. cbn.
  rewrite IH by (intros; apply Hin; now right). reflexivity.
Qed.

Lemma screen_pair_job (pr : string * string) :
  screen_pair config closes pr =
  match job config closes pr with
  | Returned (_, Some d) =>
      if lt (pvalue d) (coint_threshold config)
      then Some {| leg0 := fst pr; leg1 := snd pr;
                   pval := pvalue d; stat := score d |}
      else None
  | _ => None
  end.
Proof.
  unfold screen_pair, job.
  destruct (getitem closes (fst pr)); trivial.
  destruct (getitem closes (snd pr)); trivial.
Qed.

Lemma collect_eq (pairs : list (string * string)) : forall acc,
  collect config (map (fun pr => (pr, job config closes pr)) pairs) acc
  = Returned (acc ++ passing config closes pairs).
Proof.
  induction pairs as [|pr rest IH]; intros acc; cbn.
  - now rewrite app_nil_r.
  - rewrite screen_pair_job.
    destruct (job_returns pr) as (lg & v & E). rewrite E. cbn.
    destruct v as [d|]; [|apply IH].
    destruct (lt (pvalue d) (coint_threshold config)); [|apply IH].
    rewrite IH, <- app_assoc. reflexivity.
Qed.

(** ** [analyze_pairs] in closed form: it returns, and what *)
Lemma analyze_pairs_eq (sched : list nat) :
  analyze_pairs config closes sched =
  let results := sort_by float pval lt (passing_completed config closes sched) in
  Returned (results, slice_to (top_n_pairs config) results).
Proof.
  unfold analyze_pairs, passing_completed, enumeration.
  rewrite submit_all_eq.
  2:{ intros [a b] H. now apply combinations_in. }
  cbn. rewrite as_completed_map, collect_eq. reflexivity.
Qed.

(** ** The passing pairs *)

Lemma passing_in (pairs : list (string * string)) (t : PairTuple) :
  In t (passing config closes pairs) <->
  exists pr, In pr pairs /\ screen_pair config closes pr = Some t.
Proof.
  unfold passing. rewrite in_flat_map. split.
  - intros (pr & Hin & Ht). exists pr. split; trivial.
    destruct (screen_pair config closes pr); cbn in Ht; [|tauto].
    destruct Ht as [->|[]]. reflexivity.
  - intros (pr & Hin & E). exists pr. split; trivial.
    rewrite E. now left.
Qed.

Lemma passing_perm (l l' : list (string * string)) :
  Permutation l l' ->
  Permutation (passing config closes l) (passing config closes l').
Proof.
  unfold passing. intros H.
  induction H; cbn.
  - constructor.
  - now apply Permutation_app_head.
  - rewrite !app_assoc. apply Permutation_app_tail, Permutation_app_comm.
  - etransitivity; eauto.
Qed.

Lemma screen_pair_some (pr : string * string) (t : PairTuple) :
  screen_pair config closes pr = Some t <->
  exists s1 s2 logged,
    getitem closes (fst pr) = Returned s1 /\
    getitem closes (snd pr) = Returned s2 /\
    calculate_cointegration config s1 s2
    = Returned (logged, Some {| score := stat t; pvalue := pval t |}) /\
    lt (pval t) (coint_threshold config) = true /\
    leg0 t = fst pr /\ leg1 t = snd pr.
Proof.
  unfold screen_pair. split.
  - destruct (getitem closes (fst pr)) as [s1|]; [|discriminate].
    destruct (getitem closes (snd pr)) as [s2|]; [|discriminate].
    destruct (calculate_cointegration config s1 s2) as [[lg [d|]]|] eqn:Ec;
      try discriminate.
    destruct (lt (pvalue d) (coint_threshold config)) eqn:E;
      [|discriminate].
    intros H. inversion H; subst; cbn.
    exists s1, s2, lg. destruct d; cbn in *. repeat split; trivial.
  - intros (s1 & s2 & lg & -> & -> & -> & Hlt & H0 & H1). cbn.
    rewrite Hlt. destruct t; cbn in *. now subst.
Qed.

Lemma passing_not_nan (pairs : list (string * string)) :
  Forall (fun t => isnan (pval t) = false) (passing config closes pairs).
Proof.
  rewrite Forall_forall. intros t Ht.
  apply passing_in in Ht as (pr & _ & E).
  apply screen_pair_some in E as (_ & _ & _ & _ & _ & _ & Hlt & _).
  now apply FloatFacts.lt_not_nan in Hlt.
Qed.

End WithLib.

End EngineFacts.

(* ================================================================== *)
(** * Sorting by p-value *)

Module RankedFacts.
Import PyFloat PyStr PyList Engine App Design.

Abbreviation numbers := (Forall (fun t : PairTuple => isnan (pval t) = false)).
Abbreviation sort_pval := (sort_by float pval lt).

Lemma StronglySorted_impl_in {A : Type} (R R' : A -> A -> Prop) (l : list A) :
  (forall x y, In x l -> In y l -> R x y -> R' x y) ->
  StronglySorted R l -> StronglySorted R' l.
Proof.
  intros Himp Hs. induction Hs as [|x l Hs IH Hx].
  - constructor.
  - constructor.
    + apply IH. intros; apply Himp; auto using in_cons.
    + rewrite Forall_forall in *. intros y Hy.
      apply Himp; auto using in_eq, in_cons.
Qed.

Lemma sort_pval_perm (l : list PairTuple) : Permutation (sort_pval l) l.
Proof. apply SortFacts.sort_by_perm. Qed.

Lemma sort_pval_numbers (l : list PairTuple) : numbers l -> numbers (sort_pval l).
Proof.
  intros H. apply Permutation_Forall with l; trivial.
  symmetry. apply sort_pval_perm.
Qed.

Lemma sort_pval_strongly (l : list PairTuple) :
  numbers l -> StronglySorted (not_after float pval lt) (sort_pval l).
Proof.
  intros H.
  apply SortFacts.sort_by_sorted with (ok := fun k => isnan k = false);
    trivial.
  - intros; apply FloatFacts.lt_irrefl.
  - intros a b c _ _ _. apply FloatFacts.lt_trans.
Qed.

Lemma sort_pval_sorted (l : list PairTuple) :
  numbers l -> Sorted pval_le (sort_pval l).
Proof.
  intros H. apply StronglySorted_Sorted.
  apply StronglySorted_impl_in with (R := not_after float pval lt).
  - pose proof (sort_pval_numbers l H) as Hn.
    rewrite Forall_forall in Hn.
    intros x y Hx Hy Hxy. unfold pval_le, not_after in *.
    rewrite FloatFacts.le_nlt by auto. now rewrite Hxy.
  - now apply sort_pval_strongly.
Qed.

Lemma ties_same_key (k : float) (l : list PairTuple) :
  isnan k = false -> numbers l ->
  ties k l = filter (same_key float pval lt k) l.
Proof.
  intros Hk Hl. unfold ties. apply filter_ext_in.
  rewrite Forall_forall in Hl. intros t Ht. unfold same_key.
  now rewrite FloatFacts.eq_nlt by auto.
Qed.

Lemma ties_nan (k : float) (l : list PairTuple) : isnan k = true -> ties k l = [].
Proof.
  intros Hk. unfold ties. induction l as [|t l IH]; cbn; trivial.
  now rewrite FloatFacts.eq_nan_r.
Qed.

Lemma sort_pval_ties (k : float) (l : list PairTuple) :
  numbers l -> ties k (sort_pval l) = ties k l.
Proof.
  intros Hl. destruct (isnan k) eqn:Hk.
  - now rewrite !ties_nan.
  - rewrite !ties_same_key by auto using sort_pval_numbers.
    apply SortFacts.sort_by_stable with (ok := fun k => isnan k = false);
      trivial.
    + intros; apply FloatFacts.lt_irrefl.
    + intros a b c _ _ _. apply FloatFacts.lt_trans.
    + apply FloatFacts.nlt_trans.
Qed.

(** [list.sort(key=lambda x: x[2])] on tuples whose p-values are numbers
    is a stable sort by p-value. *)
Lemma sort_pval_stable (l : list PairTuple) :
  numbers l -> stable_sort_of (sort_pval l) l.
Proof.
  intros H. repeat split.
  - now apply sort_pval_sorted.
  - apply sort_pval_perm.
  - intros k. now apply sort_pval_ties.
Qed.

Lemma no_ties_perm (l l' : list PairTuple) :
  Permutation l l' -> no_ties l -> no_ties l'.
Proof.
  apply SortFacts.ForallOrdPairs_perm.
  intros x y H.
  destruct (isnan (pval x)) eqn:Hx; [now apply FloatFacts.eq_nan_r|].
  destruct (isnan (pval y)) eqn:Hy; [now apply FloatFacts.eq_nan_l|].
  rewrite FloatFacts.eq_nlt in * by trivial.
  now rewrite andb_comm.
Qed.

Lemma no_ties_strict (l : list PairTuple) :
  numbers l -> no_ties l ->
  ForallOrdPairs (fun x y => lt (pval x) (pval y) = true
                             \/ lt (pval y) (pval x) = true) l.
Proof.
  intros Hn H. induction H as [|x l Hx H IH].
  - constructor.
  - inversion Hn as [|? ? Hkx Hn']; subst.
    constructor; [|now apply IH].
    rewrite Forall_forall in *. intros y Hy.
    specialize (Hx y Hy).
    rewrite FloatFacts.eq_nlt in Hx by auto.
    destruct (lt (pval x) (pval y)); [now left|].
    destruct (lt (pval y) (pval x)); [now right|discriminate].
Qed.

(** Without ties the sorted list does not depend on the order of the
    input. *)
Lemma sort_pval_order_free (l l' : list PairTuple) :
  numbers l -> no_ties l -> Permutation l l' ->
  sort_pval l = sort_pval l'.
Proof.
  intros Hn Ht Hp.
  assert (Hn' : numbers l') by now apply Permutation_Forall with l.
  assert (Hstrict : forall m, numbers m -> no_ties m ->
            StronglySorted (strictly_before float pval lt) (sort_pval m)).
  { intros m Hm Htm.
    apply SortFacts.sorted_distinct_strict.
    - now apply sort_pval_strongly.
    - apply no_ties_strict; [now apply sort_pval_numbers|].
      apply no_ties_perm with m; trivial.
      symmetry. apply sort_pval_perm. }
  apply SortFacts.strict_sorted_unique
    with (key := pval) (ltk := lt) (ok := fun k => isnan k = false).
  - intros; apply FloatFacts.lt_irrefl.
  - intros a b c _ _ _. apply FloatFacts.lt_trans.
  - now apply sort_pval_numbers.
  - now apply Hstrict.
  - apply Hstrict; trivial. now apply no_ties_perm with l.
  - rewrite !sort_pval_perm. exact Hp.
Qed.

Lemma pval_le_trans (a b c : PairTuple) :
  pval_le a b -> pval_le b c -> pval_le a c.
Proof. apply FloatFacts.le_trans. Qed.

(** A filter keeps a ranking ranked. *)
Lemma filter_sorted (f : PairTuple -> bool) (l : list PairTuple) :
  Sorted pval_le l -> Sorted pval_le (filter f l).
Proof.
  intros H. apply Sorted_StronglySorted in H.
  2:{ intros a b c. apply pval_le_trans. }
  apply StronglySorted_Sorted.
  induction H as [|x l Hs IH Hx]; cbn; [constructor|].
  destruct (f x); trivial.
  constructor; trivial.
  rewrite Forall_forall in *. intros y Hy.
  apply filter_In in Hy as [Hy _]. auto.
Qed.

End RankedFacts.

(* ================================================================== *)
(** * The properties of the screening engine *)

Module Claims.
Import PyFloat PyStr PyList Engine App Design Sample.
Import EngineFacts RankedFacts.

(** ** Ranking *)

(** C1, as stated, does not hold.  On three columns whose three pairs
    all have the p-value 0.03125, when the job of the last pair finishes
    first, the returned list starts with that last pair: it is not the
    stable sort of the passing pairs taken in enumeration order. *)
Lemma C1_enumeration_order_counterexample :
  exists results top,
    @analyze_pairs sample_lib small_config closes3 [2%nat]
    = Returned (results, top) /\
    ~ stable_sort_of results
        (@passing_enumerated sample_lib small_config closes3).
Proof.
  eexists _, _. split; [vm_compute; reflexivity|].
  intros (_ & _ & Hties). specialize (Hties f_0_03125).
  vm_compute in Hties. discriminate.
Qed.

(** C1, amended.  For every price matrix and every completion order,
    [analyze_pairs] returns, and its first list is sorted non-decreasing
    by p-value, holds exactly the passing pairs, and keeps pairs of
    equal p-value in the order in which their jobs completed: it is the
    stable sort of the passing pairs in completion order.  When the jobs
    complete in enumeration order, that is the stable sort of the
    passing pairs in enumeration order. *)
Theorem C1_ranked_stable_in_completion_order :
  forall (L : StatsLib) (config : Config) (closes : DataFrame)
         (sched : list nat),
  exists results top,
    analyze_pairs config closes sched = Returned (results, top) /\
    stable_sort_of results (passing_completed config closes sched) /\
    Permutation results (passing_enumerated config closes) /\
    (as_completed sched (enumeration closes) = enumeration closes ->
     stable_sort_of results (passing_enumerated config closes)).
Proof.
  intros L config closes sched.
  rewrite analyze_pairs_eq. cbn zeta. eexists _, _.
  split; [reflexivity|].
  assert (Hs : stable_sort_of
                 (sort_pval (passing_completed config closes sched))
                 (passing_completed config closes sched))
    by apply sort_pval_stable, passing_not_nan.
  split; [exact Hs|]. split.
  - rewrite sort_pval_perm. apply passing_perm, as_completed_perm.
  - intros Heq. unfold passing_completed in *. rewrite Heq in *. exact Hs.
Qed.

Lemma C1_ranked_stable_in_completion_order_witness :
  exists results top,
    @analyze_pairs sample_lib small_config closes3 [] = Returned (results, top) /\
    stable_sort_of results (@passing_enumerated sample_lib small_config closes3).
Proof.
  destruct (C1_ranked_stable_in_completion_order
              sample_lib small_config closes3 [])
    as (results & top & Hrun & _ & _ & Henum).
  exists results, top. split; [exact Hrun|].
  apply Henum. reflexivity.
Defined.

(** C2, as stated, does not hold.  Two runs on the same matrix and the
    same configuration, one whose jobs complete in enumeration order and
    one whose last job completes first, return different lists. *)
Lemma C2_two_runs_counterexample :
  @analyze_pairs sample_lib small_config closes3 []
  <> @analyze_pairs sample_lib small_config closes3 [2%nat].
Proof. vm_compute. discriminate. Qed.

(** C2, amended.  When no two passing pairs have equal p-values, any two
    runs on the same matrix and configuration return, and return the
    same lists, whatever their pool sizes and the completion orders of
    their jobs.  (With ties the two rankings hold the same pairs and may
    differ in the order of pairs of equal p-value.) *)
Theorem C2_runs_agree_without_ties :
  forall (L : StatsLib) (config : Config) (closes : DataFrame)
         (workers1 workers2 : positive) (sched1 sched2 : list nat),
  no_ties (passing_enumerated config closes) ->
  analyze_pairs (with_max_workers workers1 config) closes sched1
  = analyze_pairs (with_max_workers workers2 config) closes sched2 /\
  exists results top,
    analyze_pairs (with_max_workers workers1 config) closes sched1
    = Returned (results, top).
Proof.
  intros L config closes workers1 workers2 sched1 sched2 Hties.
  change (analyze_pairs (with_max_workers workers1 config) closes sched1)
    with (analyze_pairs config closes sched1).
  change (analyze_pairs (with_max_workers workers2 config) closes sched2)
    with (analyze_pairs config closes sched2).
  rewrite !analyze_pairs_eq. cbn zeta. split; [|eauto].
  assert (Hfree : forall sched,
            sort_pval (passing_completed config closes sched)
            = sort_pval (passing_enumerated config closes)).
  { intros sched. symmetry. apply sort_pval_order_free; trivial.
    - apply passing_not_nan.
    - apply passing_perm. symmetry. apply as_completed_perm. }
  now rewrite !Hfree.
Qed.

Lemma C2_runs_agree_without_ties_witness :
  @analyze_pairs sample_lib (with_max_workers 1 small_config) closes4 []
  = @analyze_pairs sample_lib (with_max_workers 8 small_config) closes4
      [2%nat; 1%nat].
Proof.
  apply (C2_runs_agree_without_ties sample_lib small_config closes4
           1%positive 8%positive [] [2%nat; 1%nat]).
  unfold no_ties. vm_compute.
  repeat (constructor; try reflexivity).
Defined.

(** C3, as stated, does not hold for a negative [top_n_pairs]: the slice
    [results[:-1]] drops the last pair, so with three ranked pairs the
    second list has two pairs, and its length is not [min(-1, 3)]. *)
Lemma C3_negative_top_n_counterexample :
  exists results top,
    @analyze_pairs sample_lib (with_top_n (-1) small_config) closes3 []
    = Returned (results, top) /\
    Z.of_nat (List.length top)
    <> Z.min (top_n_pairs (with_top_n (-1) small_config))
             (Z.of_nat (List.length results)) /\
    top <> firstn (Z.to_nat (Z.min (top_n_pairs (with_top_n (-1) small_config))
                                   (Z.of_nat (List.length results))))
                  results.
Proof.
  eexists _, _. split; [vm_compute; reflexivity|].
  split; vm_compute; discriminate.
Qed.

(** C3, amended.  For every input whose [top_n_pairs] is not negative,
    the second list returned is exactly the prefix of the first of
    length [min(top_n_pairs, len(results))]; in particular it is the
    whole first list when that list has at most [top_n_pairs] pairs. *)
Theorem C3_top_pairs_prefix :
  forall (L : StatsLib) (config : Config) (closes : DataFrame)
         (sched : list nat),
  0 <= top_n_pairs config ->
  exists results top,
    analyze_pairs config closes sched = Returned (results, top) /\
    top = firstn (Z.to_nat (Z.min (top_n_pairs config)
                                  (Z.of_nat (List.length results))))
                 results /\
    Z.of_nat (List.length top)
    = Z.min (top_n_pairs config) (Z.of_nat (List.length results)) /\
    (Z.of_nat (List.length results) <= top_n_pairs config -> top = results).
Proof.
  intros L config closes sched Hk.
  rewrite analyze_pairs_eq. cbn zeta. eexists _, _.
  split; [reflexivity|].
  set (results := sort_pval _).
  unfold slice_to. destruct (Z.leb_spec 0 (top_n_pairs config)); [|lia].
  assert (Hfirst : firstn (Z.to_nat (top_n_pairs config)) results
                   = firstn (Z.to_nat (Z.min (top_n_pairs config)
                               (Z.of_nat (List.length results)))) results).
  { destruct (Z.le_ge_cases (top_n_pairs config)
                (Z.of_nat (List.length results))) as [Hle|Hge].
    - now rewrite Z.min_l.
    - rewrite Z.min_r, Nat2Z.id, firstn_all by trivial.
      apply firstn_all2. lia. }
  split; [exact Hfirst|]. split.
  - rewrite length_firstn. lia.
  - intros Hle. apply firstn_all2. lia.
Qed.

Lemma C3_top_pairs_prefix_witness :
  exists results top,
    @analyze_pairs sample_lib (with_top_n 2 small_config) closes3 []
    = Returned (results, top) /\
    Z.of_nat (List.length top) = 2.
Proof.
  destruct (C3_top_pairs_prefix sample_lib (with_top_n 2 small_config)
              closes3 [])
    as (results & top & Hrun & Htop & Hlen & _).
  - cbn. lia.
  - exists results, top. split; [exact Hrun|].
    rewrite Hlen.
    vm_compute in Hrun. inversion Hrun. reflexivity.
Defined.

(** ** Filtering *)

Lemma slice_to_nil {A : Type} (k : Z) : slice_to k (@nil A) = [].
Proof. unfold slice_to. destruct (0 <=? k); apply firstn_nil. Qed.

Lemma passing_none {L : StatsLib} (config : Config) (closes : DataFrame)
  (pairs : list (string * string)) :
  (forall pr, In pr pairs -> screen_pair config closes pr = None) ->
  passing config closes pairs = [].
Proof.
  intros H. induction pairs as [|pr rest IH]; cbn; trivial.
  rewrite (H pr (or_introl Logic.eq_refl)). cbn.
  apply IH. intros; apply H; now right.
Qed.

(** C4.  For every price matrix and completion order, [analyze_pairs]
    returns; a tuple is in its first list if and only if its two symbols
    are a pair of the enumeration, [calculate_cointegration] on their
    columns returned a result (not [None]) with the tuple's statistic
    and p-value, and the p-value is strictly less than the threshold;
    and when no enumerated pair passes, the two lists returned are
    empty. *)
Theorem C4_ranked_iff_test_passed :
  forall (L : StatsLib) (config : Config) (closes : DataFrame)
         (sched : list nat),
  exists results top,
    analyze_pairs config closes sched = Returned (results, top) /\
    (forall t : PairTuple,
       In t results <->
       In (leg0 t, leg1 t) (enumeration closes) /\
       exists s1 s2 logged,
         getitem closes (leg0 t) = Returned s1 /\
         getitem closes (leg1 t) = Returned s2 /\
         calculate_cointegration config s1 s2
         = Returned (logged, Some {| score := stat t; pvalue := pval t |}) /\
         lt (pval t) (coint_threshold config) = true) /\
    ((forall pr, In pr (enumeration closes) ->
                 screen_pair config closes pr = None) ->
     results = [] /\ top = []).
Proof.
  intros L config closes sched.
  rewrite analyze_pairs_eq. cbn zeta. eexists _, _.
  split; [reflexivity|]. split.
  - intros t. split.
    + intros Hin.
      apply (Permutation_in _ (sort_pval_perm _)) in Hin.
      apply passing_in in Hin as (pr & Hpr & Hscreen).
      apply (Permutation_in _ (as_completed_perm _ _)) in Hpr.
      apply screen_pair_some in Hscreen
        as (s1 & s2 & lg & H1 & H2 & Hc & Hlt & E0 & E1).
      destruct pr as [a b]; cbn in *. subst a b.
      split; [exact Hpr|]. exists s1, s2, lg. auto.
    + intros (Hpr & s1 & s2 & lg & H1 & H2 & Hc & Hlt).
      apply (Permutation_in _ (Permutation_sym (sort_pval_perm _))).
      apply passing_in. exists (leg0 t, leg1 t). split.
      * apply (Permutation_in _ (Permutation_sym (as_completed_perm _ _))).
        exact Hpr.
      * apply screen_pair_some. exists s1, s2, lg. cbn. auto 10.
  - intros Hnone. unfold passing_completed.
    rewrite passing_none.
    + split; [reflexivity|]. apply slice_to_nil.
    + intros pr Hpr. apply Hnone.
      apply (Permutation_in _ (as_completed_perm _ _)) in Hpr. exact Hpr.
Qed.

Lemma C4_ranked_iff_test_passed_witness :
  exists results top,
    @analyze_pairs sample_lib small_config closes1 [] = Returned (results, top) /\
    results = [] /\ top = [].
Proof.
  destruct (C4_ranked_iff_test_passed sample_lib small_config closes1 [])
    as (results & top & Hrun & _ & Hnone).
  exists results, top. split; [exact Hrun|].
  apply Hnone. intros pr Hpr. vm_compute in Hpr. destruct Hpr.
Defined.

(** C5.  If either series is shorter than [min_data_points] or has a
    variance that [np.isclose] finds equal to 0,
    [calculate_cointegration] returns [None] (it does not raise);
    consequently the label of such a column, a constant column in
    particular, is a leg of no tuple of the screening output. *)
Theorem C5_ineligible_series_excluded :
  forall (L : StatsLib) (config : Config),
    (forall s1 s2 : Series,
       ineligible config s1 \/ ineligible config s2 ->
       calculate_cointegration config s1 s2 = Returned ([], None)) /\
    (forall (closes : DataFrame) (sched : list nat) (label : string)
            (s : Series),
       getitem closes label = Returned s ->
       ineligible config s ->
       exists results top,
         analyze_pairs config closes sched = Returned (results, top) /\
         forall t, In t results -> leg0 t <> label /\ leg1 t <> label).
Proof.
  intros L config.
  assert (Hnone : forall s1 s2 : Series,
            ineligible config s1 \/ ineligible config s2 ->
            calculate_cointegration config s1 s2 = Returned ([], None)).
  { intros s1 s2 H. unfold calculate_cointegration, ineligible in *.
    destruct (Z.ltb_spec (len s1) (min_data_points config));
      destruct (Z.ltb_spec (len s2) (min_data_points config));
      cbn; trivial.
    destruct (np_isclose (series_var s1) zero) eqn:E1; cbn; trivial.
    destruct (np_isclose (series_var s2) zero) eqn:E2; cbn; trivial.
    destruct H as [[H|H]|[H|H]]; solve [lia | congruence]. }
  split; [exact Hnone|].
  intros closes sched label s Hget Hbad.
  rewrite analyze_pairs_eq. cbn zeta. eexists _, _.
  split; [reflexivity|].
  intros t Hin.
  apply (Permutation_in _ (sort_pval_perm _)) in Hin.
  apply passing_in in Hin as (pr & _ & Hscreen).
  apply screen_pair_some in Hscreen
    as (s1 & s2 & lg & H1 & H2 & Hc & _ & E0 & E1).
  split; intros Heq.
  - rewrite <- E0, Heq, Hget in H1. inversion H1; subst s1.
    rewrite Hnone in Hc by now left. discriminate.
  - rewrite <- E1, Heq, Hget in H2. inversion H2; subst s2.
    rewrite Hnone in Hc by now right. discriminate.
Qed.

Lemma C5_ineligible_series_excluded_witness :
  @calculate_cointegration sample_lib small_config [f_1] [f_1; f_0_5]
  = Returned ([], None) /\
  exists results top,
    @analyze_pairs sample_lib small_config closes4 [] = Returned (results, top) /\
    forall t, In t results ->
              leg0 t <> "USDC/USDT:USDT" /\ leg1 t <> "USDC/USDT:USDT".
Proof.
  split.
  - apply (proj1 (C5_ineligible_series_excluded sample_lib small_config)).
    left. left. cbn. lia.
  - apply (proj2 (C5_ineligible_series_excluded sample_lib small_config))
      with (s := [f_1; f_1]).
    + reflexivity.
    + right. reflexivity.
Defined.

(** ** Failures *)

(** C6.  For every aligned price matrix with fewer than 2 columns the
    run reports the insufficient-columns failure (the error record
    "Insufficient data for pair analysis") and ends there: no job was
    submitted, no file is written and no result list is kept. *)
Theorem C6_fewer_than_two_columns :
  forall (L : StatsLib) (config : Config) (closes : DataFrame)
         (sched : list nat),
  (List.length (columns closes) < 2)%nat ->
  main_from_closes config closes sched =
  Returned {|
    events :=
      [Logged (INFO, ("Aligned data shape: " ++ shape_str closes)%string);
       Logged (ERROR, "Insufficient data for pair analysis")];
    scheduled := [];
    all_pairs_kept := None |}.
Proof.
  intros L config closes sched Hlen. unfold main_from_closes.
  destruct (Z.ltb_spec (Z.of_nat (List.length (columns closes))) 2);
    [reflexivity|lia].
Qed.

Lemma C6_fewer_than_two_columns_witness :
  @main_from_closes sample_lib small_config closes1 [] =
  Returned {|
    events :=
      [Logged (INFO, "Aligned data shape: (2, 1)");
       Logged (ERROR, "Insufficient data for pair analysis")];
    scheduled := [];
    all_pairs_kept := None |}.
Proof.
  apply (C6_fewer_than_two_columns sample_lib small_config closes1 []).
  cbn. lia.
Defined.

Lemma passing_without_raising {L : StatsLib} (config : Config)
  (closes : DataFrame) (pairs : list (string * string)) :
  passing config closes
    (filter (fun pr => negb (test_raises closes pr)) pairs)
  = passing config closes pairs.
Proof.
  unfold passing.
  induction pairs as [|pr rest IH]; cbn; trivial.
  destruct (test_raises closes pr) eqn:E; cbn; [|now rewrite IH].
  rewrite IH.
  assert (screen_pair config closes pr = None) as ->; trivial.
  unfold screen_pair, test_raises, calculate_cointegration in *.
  destruct (getitem closes (fst pr)) as [s1|]; trivial.
  destruct (getitem closes (snd pr)) as [s2|]; trivial.
  destruct (_ || _); trivial. destruct (_ || _); trivial.
  destruct (coint s1 s2 BIC); [discriminate|reflexivity].
Qed.

(** C9.  [calculate_cointegration] never raises: on every pair of
    series it returns.  When the library's test raises, the exception
    is caught, logged, and the method returns [None].  Consequently
    [analyze_pairs] always returns, and its ranking is the one of the
    batch without the pairs whose test raised. *)
Theorem C9_test_failure_is_no_result :
  forall (L : StatsLib) (config : Config),
    (forall s1 s2 : Series,
       exists logged value,
         calculate_cointegration config s1 s2 = Returned (logged, value)) /\
    (forall (s1 s2 : Series) (e : exn),
       coint s1 s2 BIC = Raised e ->
       exists logged,
         calculate_cointegration config s1 s2 = Returned (logged, None)) /\
    (forall (closes : DataFrame) (sched : list nat),
       exists results top,
         analyze_pairs config closes sched = Returned (results, top) /\
         results =
         sort_by float pval lt
           (passing config closes
              (filter (fun pr => negb (test_raises closes pr))
                      (as_completed sched (enumeration closes))))).
Proof.
  intros L config. split; [|split].
  - apply calculate_cointegration_returns.
  - intros s1 s2 e He. unfold calculate_cointegration.
    destruct (_ || _); [eauto|]. destruct (_ || _); [eauto|].
    rewrite He. cbn. eauto.
  - intros closes sched. rewrite analyze_pairs_eq. cbn zeta.
    eexists _, _. split; [reflexivity|].
    now rewrite passing_without_raising.
Qed.

Lemma C9_test_failure_is_no_result_witness :
  exists logged,
    @calculate_cointegration sample_lib small_config
      [S754_nan; f_1] [f_0_5; f_1]
    = Returned (logged, None).
Proof.
  apply (proj1 (proj2 (C9_test_failure_is_no_result sample_lib small_config)))
    with (e := Exception "SVD did not converge").
  reflexivity.
Defined.

(** C10.  Called on a matrix with fewer than 2 columns, [analyze_pairs]
    itself reports nothing: it enumerates no pair and returns two empty
    lists.  (The column check is the caller's: see C6.) *)
Theorem C10_engine_accepts_few_columns :
  forall (L : StatsLib) (config : Config) (closes : DataFrame)
         (sched : list nat),
  (List.length (columns closes) < 2)%nat ->
  enumeration closes = [] /\
  analyze_pairs config closes sched = Returned ([], []).
Proof.
  intros L config closes sched Hlen.
  assert (Henum : enumeration closes = [])
    by now apply combinations_short.
  split; [exact Henum|].
  rewrite analyze_pairs_eq. unfold passing_completed.
  rewrite Henum. cbn. now rewrite slice_to_nil.
Qed.

Lemma C10_engine_accepts_few_columns_witness :
  enumeration closes1 = [] /\
  @analyze_pairs sample_lib small_config closes1 [] = Returned ([], []).
Proof.
  apply (C10_engine_accepts_few_columns sample_lib small_config closes1 []).
  cbn. lia.
Defined.

(** ** Lookup *)

(** C7, as stated, does not hold.  The query is put in upper case, the
    symbols are not: a pair whose symbol is written [btc/USDT:USDT]
    equals the query [btc] up to case, and the lookup does not return
    it. *)
Lemma C7_lower_case_symbol_counterexample :
  findBySymbol "btc" ranked_lower = ranked_lower /\
  matching_pairs ranked_lower (upper (strip "btc")) = [] /\
  matching_pairs ranked_lower (upper (strip "btc"))
  <> findBySymbol "btc" ranked_lower.
Proof. repeat split; vm_compute; trivial; discriminate. Qed.

(** C7, amended.  For every query and every ranking whose symbols have
    no lower-case letter before the separator, the lookup returns
    exactly the sub-sequence of the ranking in which the part of either
    symbol before the first [/] equals the query (without the white
    space around it) up to letter case, in the order of the ranking (so
    ascending by p-value when the ranking is); these are the pairs whose
    lines the loop prints, for every query other than [x] and [list]. *)
Theorem C7_lookup_upper_case_symbols :
  forall (raw : string) (ranked : list PairTuple),
  Forall (fun r => is_upper (symbol_root (leg0 r))
                   /\ is_upper (symbol_root (leg1 r))) ranked ->
  matching_pairs ranked (upper (strip raw)) = findBySymbol (strip raw) ranked /\
  (Sorted pval_le ranked ->
   Sorted pval_le (matching_pairs ranked (upper (strip raw)))) /\
  (upper (strip raw) <> "X" -> upper (strip raw) <> "LIST" ->
   findBySymbol (strip raw) ranked <> [] ->
   lookup_step ranked raw =
   (Asked lookup_prompt :: Cleared
    :: Printed (nl ++ "Cointegrated pairs containing " ++ upper (strip raw)
                ++ ":")%string
    :: map (fun pair => Printed (query_line pair))
           (findBySymbol (strip raw) ranked),
    true)).
Proof.
  intros raw ranked Hupper.
  assert (Heq : matching_pairs ranked (upper (strip raw))
                = findBySymbol (strip raw) ranked).
  { unfold matching_pairs, findBySymbol. apply filter_ext_in.
    rewrite Forall_forall in Hupper. intros r Hr.
    destruct (Hupper r Hr) as [H0 H1].
    unfold equal_ignoring_case, is_upper, symbol_root in *.
    now rewrite H0, H1. }
  split; [exact Heq|]. split.
  - intros Hs. unfold matching_pairs. now apply filter_sorted.
  - intros HX HL Hne. unfold lookup_step.
    apply String.eqb_neq in HX, HL. rewrite HX, HL, Heq.
    destruct (findBySymbol (strip raw) ranked); [contradiction|reflexivity].
Qed.

Lemma C7_lookup_upper_case_symbols_witness :
  matching_pairs ranked_upper (upper (strip " sol "))
  = findBySymbol (strip " sol ") ranked_upper.
Proof.
  apply (C7_lookup_upper_case_symbols " sol " ranked_upper).
  repeat constructor.
Defined.

(** ** Formatting *)

Lemma list_ascii_app (a b : string) :
  list_ascii_of_string (a ++ b)
  = (list_ascii_of_string a ++ list_ascii_of_string b)%list.
Proof. induction a as [|c a IH]; cbn; [|rewrite IH]; reflexivity. Qed.

Lemma all_digits_app (a b : string) :
  all_digits a = true -> all_digits b = true -> all_digits (a ++ b) = true.
Proof.
  unfold all_digits. intros Ha Hb.
  now rewrite list_ascii_app, forallb_app, Ha, Hb.
Qed.

Lemma length_append (a b : string) :
  String.length (a ++ b) = (String.length a + String.length b)%nat.
Proof. induction a as [|c a IH]; cbn; [|rewrite IH]; reflexivity. Qed.

Lemma digit_char_digit (d : Z) : is_digit (digit_char d) = true.
Proof.
  unfold is_digit, digit_char.
  pose proof (Z.mod_pos_bound d 10 ltac:(lia)) as Hb.
  rewrite N_ascii_embedding by lia.
  apply andb_true_iff. split; apply N.leb_le; lia.
Qed.

Lemma digit_string (d : Z) :
  all_digits (String (digit_char d) EmptyString) = true.
Proof. unfold all_digits. cbn. now rewrite digit_char_digit. Qed.

Lemma int_digits_digits (fuel : nat) : forall n,
  all_digits (int_digits fuel n) = true.
Proof.
  induction fuel as [|fuel IH]; intros n; cbn.
  - apply digit_string.
  - destruct (n <? 10); [apply digit_string|].
    apply all_digits_app; [apply IH|apply digit_string].
Qed.

Lemma int_digits_nonempty (fuel : nat) (n : Z) : int_digits fuel n <> "".
Proof.
  destruct fuel as [|fuel]; cbn; [discriminate|].
  destruct (n <? 10); [discriminate|].
  destruct (int_digits fuel (n / 10)); discriminate.
Qed.

Lemma frac_digits_digits (k : nat) : forall n,
  all_digits (frac_digits k n) = true.
Proof.
  induction k as [|k IH]; intros n; cbn; trivial.
  apply all_digits_app; [apply IH|apply digit_string].
Qed.

Lemma frac_digits_length (k : nat) : forall n,
  String.length (frac_digits k n) = k.
Proof.
  induction k as [|k IH]; intros n; cbn; trivial.
  rewrite length_append, IH. cbn. lia.
Qed.

(** The fuel of [str_int] is enough: the digits denote the number. *)
Lemma digits_value_app (a b : string) : forall acc,
  digits_value acc (a ++ b) = digits_value (digits_value acc a) b.
Proof. induction a as [|c a IH]; intros acc; cbn; [|rewrite IH]; reflexivity. Qed.

Lemma digit_char_value (acc d : Z) :
  digits_value acc (String (digit_char d) EmptyString) = 10 * acc + d mod 10.
Proof.
  unfold digit_char, digits_value.
  pose proof (Z.mod_pos_bound d 10 ltac:(lia)).
  rewrite N_ascii_embedding by lia. lia.
Qed.

Lemma int_digits_value (fuel : nat) : forall n,
  0 <= n < 10 ^ Z.of_nat (S fuel) -> digits_value 0 (int_digits fuel n) = n.
Proof.
  induction fuel as [|fuel IH]; intros n Hn.
  - cbn [int_digits]. rewrite digit_char_value.
    change (10 ^ Z.of_nat 1) with 10 in Hn.
    rewrite Z.mod_small; lia.
  - cbn [int_digits]. destruct (Z.ltb_spec n 10).
    + rewrite digit_char_value, Z.mod_small; lia.
    + rewrite digits_value_app, IH, digit_char_value.
      * pose proof (Z.div_mod n 10 ltac:(lia)). lia.
      * rewrite Nat2Z.inj_succ, Z.pow_succ_r in Hn by lia.
        split; [apply Z.div_pos; lia|].
        apply Z.div_lt_upper_bound; lia.
Qed.

Lemma str_int_value (n : Z) : 0 <= n -> digits_value 0 (str_int n) = n.
Proof.
  intros Hn. unfold str_int. apply int_digits_value.
  destruct (Z.eq_dec n 0) as [->|Hne]; [cbn; lia|].
  pose proof (Z.log2_spec n ltac:(lia)) as [_ Hlog].
  pose proof (Z.log2_nonneg n).
  rewrite Nat2Z.inj_succ, Z2Nat.id by trivial.
  split; [exact Hn|].
  apply Z.lt_le_trans with (2 ^ Z.succ (Z.log2 n)); [exact Hlog|].
  apply Z.pow_le_mono_l. lia.
Qed.

(** A finite float printed with [prec >= 1] has [prec] decimal places. *)
Lemma format_f_places (prec : nat) (x : float) :
  prec <> O -> isfinite x = true -> decimal_places prec (format_f prec x).
Proof.
  intros Hprec Hfin.
  assert (Hfix : forall s n,
            decimal_places prec (sign_str s ++ fixed_point prec n)).
  { intros s n. unfold fixed_point.
    destruct prec as [|p]; [contradiction|].
    exists (sign_str s), (str_int (n / 10 ^ Z.of_nat (S p))),
      (frac_digits (S p) (n mod 10 ^ Z.of_nat (S p))).
    split; [reflexivity|]. split; [destruct s; auto|].
    split; [apply int_digits_nonempty|].
    split; [apply int_digits_digits|].
    split; [apply frac_digits_length|apply frac_digits_digits]. }
  destruct x; try discriminate; apply Hfix.
Qed.

Lemma inf_not_decimal (prec : nat) : ~ decimal_places prec "-inf".
Proof.
  intros (sgn & ip & fp & Heq & Hsgn & Hne & Hd & _).
  destruct ip as [|c ip]; [contradiction|].
  destruct Hsgn as [-> | ->]; cbn in Heq; inversion Heq; subst;
    discriminate.
Qed.

(** C8, as stated, does not hold for a statistic that is not finite.
    For two (almost) collinear series the test reports the statistic
    [-inf] with the p-value 0; the pair passes, and its record is
    written with the score [-inf], which has no decimal places. *)
Lemma C8_infinite_score_counterexample :
  @main_from_closes collinear_lib small_config closes2 [] =
  Returned {|
    events :=
      [Logged (INFO, "Aligned data shape: (2, 2)");
       ToCsv "pairs_to_trade.csv"
         [{| Pair := "BTC/USDT:USDT-ETH/USDT:USDT";
             P_Value := "0.0000";
             Score := "-inf" |}];
       Logged (INFO, "Saved 1 pairs to pairs_to_trade.csv")];
    scheduled := [("BTC/USDT:USDT", "ETH/USDT:USDT")];
    all_pairs_kept :=
      Some [{| leg0 := "BTC/USDT:USDT"; leg1 := "ETH/USDT:USDT";
               pval := zero; stat := f_ninf |}] |} /\
  ~ decimal_places 2 "-inf" /\
  query_line {| leg0 := "BTC/USDT:USDT"; leg1 := "ETH/USDT:USDT";
                pval := zero; stat := f_ninf |}
  = "BTC/USDT:USDT - ETH/USDT:USDT: p-value=0.0000, score=-inf".
Proof.
  split; [vm_compute; reflexivity|].
  split; [apply inf_not_decimal|vm_compute; reflexivity].
Qed.

(** C8, amended.  For every tuple whose p-value and statistic are
    finite floats, the batch record has the pair field
    [<symbolA>-<symbolB>], the p-value with exactly 4 decimal places and
    the score with exactly 2, and the line of the lookup loop is
    [<symbolA> - <symbolB>: p-value=<p>, score=<s>] with the same two
    strings. *)
Theorem C8_finite_values_formatting :
  forall t : PairTuple,
  isfinite (pval t) = true -> isfinite (stat t) = true ->
  Pair (csv_row t) = (leg0 t ++ "-" ++ leg1 t)%string /\
  decimal_places 4 (P_Value (csv_row t)) /\
  decimal_places 2 (Score (csv_row t)) /\
  query_line t =
  (leg0 t ++ " - " ++ leg1 t ++ ": p-value=" ++ P_Value (csv_row t)
   ++ ", score=" ++ Score (csv_row t))%string.
Proof.
  intros t Hp Hs. cbn.
  split; [reflexivity|].
  split; [now apply format_f_places|].
  split; [now apply format_f_places|reflexivity].
Qed.

Lemma C8_finite_values_formatting_witness :
  decimal_places 4 "0.0312" /\ decimal_places 2 "-3.50".
Proof.
  pose proof (C8_finite_values_formatting
                {| leg0 := "BTC/USDT:USDT"; leg1 := "ETH/USDT:USDT";
                   pval := f_0_03125; stat := f_m3_5 |}
                Logic.eq_refl Logic.eq_refl) as (_ & Hp & Hs & _).
  split; [exact Hp|exact Hs].
Defined.

End Claims.

(* ================================================================== *)
(** * Further properties of the program *)

Module Extras.
Import PyFloat PyStr PyList Engine App Design Sample Frame SampleFrame.
Import EngineFacts RankedFacts.

(** ** Enumeration *)

Lemma combinations_length {A : Type} (l : list A) :
  (2 * List.length (combinations l)
   = List.length l * (List.length l - 1))%nat.
Proof.
  induction l as [|x t IH]; cbn [combinations List.length]; trivial.
  rewrite length_app, length_map. nia.
Qed.

Lemma combinations_distinct {A : Type} (l : list A) (a b : A) :
  NoDup l -> In (a, b) (combinations l) -> a <> b /\ ~ In (b, a) (combinations l).
Proof.
  induction l as [|x t IH]; cbn; [tauto|].
  intros Hnd. inversion Hnd as [|? ? Hx Hnd']; subst.
  rewrite !in_app_iff, !in_map_iff.
  intros [(y & Hy & Hin)|Hin].
  - inversion Hy; subst. split; [congruence|].
    intros [(z & Hz & Hin')|Hin'].
    + inversion Hz; subst. contradiction.
    + apply combinations_in in Hin'. tauto.
  - destruct (IH Hnd' Hin) as [Hab Hba]. split; trivial.
    intros [(z & Hz & Hin')|Hin']; [|tauto].
    inversion Hz; subst. apply combinations_in in Hin. tauto.
Qed.

Lemma combinations_nodup {A : Type} (l : list A) :
  NoDup l -> NoDup (combinations l).
Proof.
  induction l as [|x t IH]; cbn; intros Hnd; [constructor|].
  inversion Hnd as [|? ? Hx Hnd']; subst.
  apply NoDup_app.
  - apply Finite.Injective_map_NoDup; trivial.
    intros a b H. now inversion H.
  - now apply IH.
  - intros [a b] Hin Hin'. apply in_map_iff in Hin as (y & Hy & _).
    inversion Hy; subst. apply combinations_in in Hin'. tauto.
Qed.


Lemma passing_length {L : StatsLib} (config : Config) (closes : DataFrame)
  (pairs : list (string * string)) :
  (List.length (passing config closes pairs) <= List.length pairs)%nat /\
  ((forall pr, In pr pairs -> screen_pair config closes pr <> None) ->
   List.length (passing config closes pairs) = List.length pairs).
Proof.
  unfold passing. induction pairs as [|pr rest [IHle IHeq]]; cbn.
  - split; trivial.
  - rewrite length_app. split.
    + destruct (screen_pair config closes pr); cbn; lia.
    + intros Hall. rewrite IHeq by (intros; apply Hall; now right).
      pose proof (Hall pr (or_introl Logic.eq_refl)).
      destruct (screen_pair config closes pr); [reflexivity|contradiction].
Qed.

(** X1.  The engine tests each unordered pair of column positions once:
    for [n] columns it submits [n (n - 1) / 2] jobs, the ranking never
    has more tuples than that, and has exactly that many when every pair
    passes. *)
Theorem X1_number_of_pairs :
  forall (L : StatsLib) (config : Config) (closes : DataFrame)
         (sched : list nat),
  exists results top,
    analyze_pairs config closes sched = Returned (results, top) /\
    (2 * List.length (enumeration closes)
     = List.length (columns closes) * (List.length (columns closes) - 1))%nat /\
    (List.length results <= List.length (enumeration closes))%nat /\
    ((forall pr, In pr (enumeration closes) ->
                 screen_pair config closes pr <> None) ->
     (2 * List.length results
      = List.length (columns closes) * (List.length (columns closes) - 1))%nat).
Proof.
  intros L config closes sched.
  rewrite analyze_pairs_eq. cbn zeta. eexists _, _.
  split; [reflexivity|].
  pose proof (combinations_length (columns closes)) as Hcount.
  assert (Hlen : List.length (as_completed sched (enumeration closes))
                 = List.length (enumeration closes))
    by apply Permutation_length, as_completed_perm.
  split; [exact Hcount|].
  rewrite (Permutation_length (sort_pval_perm _)).
  unfold passing_completed. split.
  - rewrite <- Hlen. apply passing_length.
  - intros Hall. rewrite (proj2 (passing_length _ _ _)).
    + rewrite Hlen. exact Hcount.
    + intros pr Hpr. apply Hall.
      apply (Permutation_in _ (as_completed_perm _ _)) in Hpr. exact Hpr.
Qed.

Lemma X1_number_of_pairs_witness :
  exists results top,
    @analyze_pairs sample_lib small_config closes3 [2%nat]
    = Returned (results, top) /\
    List.length results = 3%nat.
Proof.
  destruct (X1_number_of_pairs sample_lib small_config closes3 [2%nat])
    as (results & top & Hrun & _ & _ & Hall).
  exists results, top. split; [exact Hrun|].
  assert (H : (2 * List.length results = 3 * (3 - 1))%nat).
  { apply Hall. intros pr Hpr. vm_compute in Hpr.
    destruct Hpr as [<-|[<-|[<-|[]]]]; vm_compute; discriminate. }
  lia.
Defined.

Lemma legs_passing {L : StatsLib} (config : Config) (closes : DataFrame)
  (pairs : list (string * string)) :
  map legs (passing config closes pairs)
  = filter (fun pr => match screen_pair config closes pr with
                      | Some _ => true
                      | None => false
                      end) pairs.
Proof.
  unfold passing. induction pairs as [|pr rest IH]; cbn; trivial.
  rewrite map_app, IH.
  destruct (screen_pair config closes pr) as [t|] eqn:E; cbn; trivial.
  apply screen_pair_some in E as (_ & _ & _ & _ & _ & _ & _ & E0 & E1).
  unfold legs. rewrite E0, E1. now destruct pr.
Qed.

(** X2.  When the column labels are distinct, the two symbols of every
    ranked tuple differ, no pair of symbols is ranked twice, and no pair
    is ranked in both orders. *)
Theorem X2_pairs_are_unordered_and_unique :
  forall (L : StatsLib) (config : Config) (closes : DataFrame)
         (sched : list nat),
  NoDup (columns closes) ->
  exists results top,
    analyze_pairs config closes sched = Returned (results, top) /\
    NoDup (map legs results) /\
    forall t, In t results ->
      leg0 t <> leg1 t /\
      forall t', In t' results -> legs t' <> (leg1 t, leg0 t).
Proof.
  intros L config closes sched Hnd.
  rewrite analyze_pairs_eq. cbn zeta. eexists _, _.
  split; [reflexivity|].
  assert (Hsub : forall t,
             In t (sort_pval (passing_completed config closes sched)) ->
             In (legs t) (enumeration closes)).
  { intros t Ht.
    apply (Permutation_in _ (sort_pval_perm _)) in Ht.
    apply (in_map legs) in Ht. unfold passing_completed in Ht.
    rewrite legs_passing in Ht. apply filter_In in Ht as [Ht _].
    apply (Permutation_in _ (as_completed_perm _ _)) in Ht. exact Ht. }
  split.
  - apply Permutation_NoDup
      with (map legs (passing_completed config closes sched)).
    + apply Permutation_map. symmetry. apply sort_pval_perm.
    + unfold passing_completed. rewrite legs_passing.
      apply NoDup_filter.
      apply Permutation_NoDup with (enumeration closes).
      * symmetry. apply as_completed_perm.
      * now apply combinations_nodup.
  - intros t Ht.
    destruct (combinations_distinct _ _ _ Hnd (Hsub t Ht)) as [Hne Hrev].
    split; [exact Hne|].
    intros t' Ht' Heq. apply Hrev. rewrite <- Heq. now apply Hsub.
Qed.

Lemma X2_pairs_are_unordered_and_unique_witness :
  exists results top,
    @analyze_pairs sample_lib small_config closes4 [1%nat]
    = Returned (results, top) /\
    NoDup (map legs results).
Proof.
  destruct (X2_pairs_are_unordered_and_unique
              sample_lib small_config closes4 [1%nat])
    as (results & top & Hrun & Hnd & _).
  - cbn. repeat constructor; cbn; intuition discriminate.
  - exists results, top. split; assumption.
Defined.

(** ** The top pairs *)

Lemma sorted_prefix {A : Type} (R : A -> A -> Prop) (l1 l2 : list A) :
  Sorted R (l1 ++ l2) -> Sorted R l1.
Proof.
  induction l1 as [|x l1 IH]; cbn; intros H; [constructor|].
  inversion H as [|? ? Hs Hh]; subst.
  constructor; [now apply IH|].
  destruct l1; cbn in *; [constructor|].
  inversion Hh; subst. now constructor.
Qed.

(** X3.  Whatever the integer [top_n_pairs], the second list returned is
    a prefix of the ranking, so it is itself sorted by p-value; a
    negative [top_n_pairs] leaves out that many pairs at the end (all of
    them when there are not more). *)
Theorem X3_top_pairs_always_prefix :
  forall (L : StatsLib) (config : Config) (closes : DataFrame)
         (sched : list nat),
  exists results top rest,
    analyze_pairs config closes sched = Returned (results, top) /\
    results = (top ++ rest)%list /\
    Sorted pval_le top /\
    Z.of_nat (List.length top)
    = Z.max 0 (Z.min (Z.of_nat (List.length results))
                     (if top_n_pairs config <? 0
                      then Z.of_nat (List.length results) + top_n_pairs config
                      else top_n_pairs config)).
Proof.
  intros L config closes sched.
  rewrite analyze_pairs_eq. cbn zeta.
  set (results := sort_pval _).
  assert (Hsorted : Sorted pval_le results)
    by apply sort_pval_sorted, passing_not_nan.
  unfold slice_to.
  destruct (Z.leb_spec 0 (top_n_pairs config)) as [Hk|Hk];
    destruct (Z.ltb_spec (top_n_pairs config) 0); try lia.
  - exists results, (firstn (Z.to_nat (top_n_pairs config)) results),
      (skipn (Z.to_nat (top_n_pairs config)) results).
    split; [reflexivity|]. split; [now rewrite firstn_skipn|]. split.
    + apply sorted_prefix
        with (l2 := skipn (Z.to_nat (top_n_pairs config)) results).
      now rewrite firstn_skipn.
    + rewrite length_firstn. lia.
  - set (n := (List.length results - Z.to_nat (- top_n_pairs config))%nat).
    exists results, (firstn n results), (skipn n results).
    split; [reflexivity|]. split; [now rewrite firstn_skipn|]. split.
    + apply sorted_prefix with (l2 := skipn n results).
      now rewrite firstn_skipn.
    + rewrite length_firstn. unfold n. lia.
Qed.


(** ** The threshold *)

Section FilterSort.
Context {A K : Type}.
Variable key : A -> K.
Variable ltk : K -> K -> bool.
Variable ok : K -> Prop.
Hypothesis nltk_trans : forall a b c, ok a -> ok b -> ok c ->
  ltk a b = false -> ltk b c = false -> ltk a c = false.
Variable keep : A -> bool.

Local Abbreviation ins := (insert_right K key ltk).
Local Abbreviation before := (not_after K key ltk).
Local Abbreviation oks := (Forall (fun x => ok (key x))).

Lemma insert_right_front x l :
  (forall z, In z l -> ltk (key x) (key z) = true) -> ins x l = x :: l.
Proof.
  destruct l as [|z l]; cbn; trivial.
  intros H. now rewrite (H z (or_introl Logic.eq_refl)).
Qed.

Lemma filter_insert_right x l :
  ok (key x) -> oks l -> StronglySorted before l ->
  filter keep (ins x l)
  = if keep x then ins x (filter keep l) else filter keep l.
Proof.
  intros Hx Hl Hs. induction Hs as [|y l Hs IH Hy].
  - cbn. destruct (keep x); reflexivity.
  - inversion Hl as [|? ? Hky Hl']; subst.
    cbn [insert_right]. destruct (ltk (key x) (key y)) eqn:Hxy.
    + cbn [filter]. destruct (keep x); trivial.
      symmetry. apply insert_right_front.
      intros z Hz.
      assert (Hz' : In z (y :: l)).
      { change (In z (filter keep (y :: l))) in Hz.
        now apply filter_In in Hz. }
      destruct Hz' as [<-|Hz']; trivial.
      rewrite Forall_forall in Hy, Hl'.
      specialize (Hy z Hz'). unfold not_after in Hy.
      destruct (ltk (key x) (key z)) eqn:E; trivial.
      rewrite <- Hxy. symmetry. apply nltk_trans with (key z); auto.
    + cbn [filter]. rewrite (IH Hl').
      destruct (keep y), (keep x); cbn [insert_right]; rewrite ?Hxy;
        reflexivity.
Qed.

Lemma filter_fold_insert_right l : forall acc,
  oks acc -> oks l -> StronglySorted before acc ->
  (forall x acc', ok (key x) -> oks acc' -> StronglySorted before acc' ->
                  StronglySorted before (ins x acc')) ->
  filter keep (fold_left (fun acc x => ins x acc) l acc)
  = fold_left (fun acc x => ins x acc) (filter keep l) (filter keep acc).
Proof.
  induction l as [|x l IH]; intros acc Hacc Hl Hs Hins; cbn; trivial.
  inversion Hl; subst. rewrite IH; trivial.
  - rewrite filter_insert_right by trivial.
    destruct (keep x); reflexivity.
  - apply Permutation_Forall with (x :: acc).
    + symmetry. apply SortFacts.insert_right_perm.
    + now constructor.
  - now apply Hins.
Qed.

End FilterSort.

(** Sorting by p-value and then dropping some tuples gives what dropping
    them first and sorting then gives. *)
Lemma filter_sort_pval (keep : PairTuple -> bool) (l : list PairTuple) :
  numbers l -> filter keep (sort_pval l) = sort_pval (filter keep l).
Proof.
  intros Hl. unfold sort_by.
  apply (filter_fold_insert_right pval lt (fun k => isnan k = false)
           FloatFacts.nlt_trans keep l []); trivial; try constructor.
  intros x acc Hx Hacc Hs.
  apply SortFacts.insert_right_sorted with (ok := fun k => isnan k = false);
    trivial.
  - intros; apply FloatFacts.lt_irrefl.
  - intros a b c _ _ _. apply FloatFacts.lt_trans.
Qed.

Lemma lt_le_trans (a b c : float) :
  lt a b = true -> le b c = true -> lt a c = true.
Proof. FloatFacts.float_cases. Qed.

Lemma passing_threshold {L : StatsLib} (config : Config) (closes : DataFrame)
  (thr1 thr2 : float) (pairs : list (string * string)) :
  le thr1 thr2 = true ->
  passing (with_threshold thr1 config) closes pairs
  = filter (fun t => lt (pval t) thr1)
           (passing (with_threshold thr2 config) closes pairs).
Proof.
  intros Hle. unfold passing.
  induction pairs as [|pr rest IH]; cbn [flat_map]; trivial.
  rewrite filter_app, <- IH. f_equal.
  rewrite !screen_pair_job.
  change (job (with_threshold thr1 config) closes pr)
    with (job config closes pr).
  change (job (with_threshold thr2 config) closes pr)
    with (job config closes pr).
  destruct (job config closes pr) as [[lg [d|]]|]; trivial.
  cbn [coint_threshold with_threshold].
  destruct (lt (pvalue d) thr1) eqn:E1.
  - rewrite (lt_le_trans _ _ _ E1 Hle). cbn. now rewrite E1.
  - destruct (lt (pvalue d) thr2); cbn; trivial. now rewrite E1.
Qed.

(** X4.  Lowering the threshold only removes pairs: for thresholds
    [thr1 <= thr2] and the same completion order, the ranking under
    [thr1] is the ranking under [thr2] without the tuples whose p-value
    is not below [thr1], in the same order. *)
Theorem X4_threshold_is_monotone :
  forall (L : StatsLib) (config : Config) (closes : DataFrame)
         (sched : list nat) (thr1 thr2 : float),
  le thr1 thr2 = true ->
  exists results1 top1 results2 top2,
    analyze_pairs (with_threshold thr1 config) closes sched
    = Returned (results1, top1) /\
    analyze_pairs (with_threshold thr2 config) closes sched
    = Returned (results2, top2) /\
    results1 = filter (fun t => lt (pval t) thr1) results2.
Proof.
  intros L config closes sched thr1 thr2 Hle.
  rewrite !analyze_pairs_eq. cbn zeta. eexists _, _, _, _.
  split; [reflexivity|]. split; [reflexivity|].
  unfold passing_completed.
  rewrite (passing_threshold _ _ thr1 thr2) by exact Hle.
  symmetry. apply filter_sort_pval, passing_not_nan.
Qed.

Lemma X4_threshold_is_monotone_witness :
  exists results1 top1 results2 top2,
    @analyze_pairs sample_lib (with_threshold f_0_03125 small_config)
      closes4 [1%nat] = Returned (results1, top1) /\
    @analyze_pairs sample_lib (with_threshold f_0_05 small_config)
      closes4 [1%nat] = Returned (results2, top2) /\
    results1 = filter (fun t => lt (pval t) f_0_03125) results2.
Proof.
  apply (X4_threshold_is_monotone sample_lib small_config closes4 [1%nat]
           f_0_03125 f_0_05).
  reflexivity.
Defined.


(** ** The report *)

(** X5.  On a matrix with at least 2 columns the run returns, having
    submitted the job of every enumerated pair.  It writes the file at
    most once and never without rows: a file is written exactly when the
    list of top pairs is not empty, to [output_file], with one record
    per top pair in ranking order; and the full ranking is kept for the
    lookup loop exactly when the file was written. *)
Theorem X5_file_written_iff_top_pairs :
  forall (L : StatsLib) (config : Config) (closes : DataFrame)
         (sched : list nat),
  (2 <= List.length (columns closes))%nat ->
  exists run results top,
    main_from_closes config closes sched = Returned run /\
    analyze_pairs config closes sched = Returned (results, top) /\
    scheduled run = enumeration closes /\
    (top = [] ->
     filter is_csv (events run) = [] /\ all_pairs_kept run = None /\
     In (Logged (ERROR, "No cointegrated pairs found")) (events run)) /\
    (top <> [] ->
     filter is_csv (events run)
     = [ToCsv (output_file config) (map csv_row top)] /\
     all_pairs_kept run = Some results).
Proof.
  intros L config closes sched Hlen. unfold main_from_closes.
  destruct (Z.ltb_spec (Z.of_nat (List.length (columns closes))) 2); [lia|].
  rewrite analyze_pairs_eq. cbn zeta. cbn [bind].
  set (results := sort_pval _).
  destruct (slice_to (top_n_pairs config) results) as [|t top] eqn:Etop.
  - eexists _, results, [].
    split; [reflexivity|]. split; [reflexivity|]. split; [reflexivity|].
    split.
    + intros _. cbn. auto.
    + intros H'. now contradiction H'.
  - eexists _, results, (t :: top).
    split; [reflexivity|]. split; [reflexivity|]. split; [reflexivity|].
    split; [discriminate|].
    intros _. split; reflexivity.
Qed.

Lemma X5_file_written_iff_top_pairs_witness :
  exists run results top,
    @main_from_closes sample_lib small_config closes4 [] = Returned run /\
    @analyze_pairs sample_lib small_config closes4 [] = Returned (results, top) /\
    filter is_csv (events run)
    = [ToCsv "pairs_to_trade.csv" (map csv_row top)].
Proof.
  destruct (X5_file_written_iff_top_pairs sample_lib small_config closes4 [])
    as (run & results & top & Hrun & Han & _ & _ & Hfile).
  - cbn. lia.
  - exists run, results, top. split; [exact Hrun|]. split; [exact Han|].
    apply Hfile. vm_compute in Han. inversion Han. discriminate.
Defined.



(** ** Missing values *)

Lemma lookup_column_in (cols : list (string * Series)) (label : string)
  (s : Series) :
  lookup_column cols label = Returned s -> In (label, s) cols.
Proof.
  induction cols as [|[l s'] cols IH]; cbn; [discriminate|].
  destruct (String.eqb_spec l label) as [->|Hne].
  - intros H. inversion H. now left.
  - intros H. right. now apply IH.
Qed.

Lemma filter_twice {A : Type} (f : A -> bool) (l : list A) :
  filter f (filter f l) = filter f l.
Proof.
  induction l as [|x l IH]; cbn; trivial.
  destruct (f x) eqn:E; cbn; rewrite ?E, IH; reflexivity.
Qed.

(** X7.  After [dropna(axis=1, how='any')] no column holds a missing
    value and every column is a column of the fetched frame; dropping
    again changes nothing.  Hence the run from the fetched frame returns,
    and both symbols of every job it submits, and of every tuple it keeps
    for the lookup, label a fetched column free of NaN. *)
Theorem X7_columns_with_missing_values_are_dropped :
  forall (L : StatsLib) (config : Config) (frame : DataFrame)
         (sched : list nat),
    dropna_columns (dropna_columns frame) = dropna_columns frame /\
    (forall label s,
       getitem (dropna_columns frame) label = Returned s ->
       has_na s = false /\ In (label, s) (data frame)) /\
    exists run,
      main_from_frame config frame sched = Returned run /\
      (forall a b, In (a, b) (scheduled run) ->
         exists s0 s1,
           In (a, s0) (data frame) /\ has_na s0 = false /\
           In (b, s1) (data frame) /\ has_na s1 = false) /\
      (forall all t, all_pairs_kept run = Some all -> In t all ->
         exists s0 s1,
           In (leg0 t, s0) (data frame) /\ has_na s0 = false /\
           In (leg1 t, s1) (data frame) /\ has_na s1 = false).
Proof.
  intros L config frame sched.
  assert (Hcol : forall label s,
             getitem (dropna_columns frame) label = Returned s ->
             has_na s = false /\ In (label, s) (data frame)).
  { intros label s H. unfold getitem in H. cbn in H.
    apply lookup_column_in, filter_In in H as [Hin Hna].
    cbn in Hna. apply negb_true_iff in Hna. auto. }
  assert (Henum : forall a b,
             In (a, b) (enumeration (dropna_columns frame)) ->
             exists s0 s1,
               In (a, s0) (data frame) /\ has_na s0 = false /\
               In (b, s1) (data frame) /\ has_na s1 = false).
  { intros a b Hab. apply combinations_in in Hab as [Ha Hb].
    destruct (getitem_column _ _ Ha) as [s0 H0].
    destruct (getitem_column _ _ Hb) as [s1 H1].
    destruct (Hcol _ _ H0), (Hcol _ _ H1). exists s0, s1. auto. }
  split; [|split; [exact Hcol|]].
  - unfold dropna_columns. cbn [index data]. now rewrite filter_twice.
  - unfold main_from_frame, main_from_closes. cbn zeta.
    destruct (_ <? 2).
    { eexists. split; [reflexivity|]. cbn. split; [tauto|discriminate]. }
    rewrite analyze_pairs_eq. cbn zeta. cbn [bind].
    set (results := sort_pval _).
    assert (Hres : forall t, In t results ->
              exists s0 s1,
                In (leg0 t, s0) (data frame) /\ has_na s0 = false /\
                In (leg1 t, s1) (data frame) /\ has_na s1 = false).
    { intros t Ht.
      apply (Permutation_in _ (sort_pval_perm _)) in Ht.
      apply passing_in in Ht as (pr & _ & Hscreen).
      apply screen_pair_some in Hscreen
        as (s0 & s1 & _ & H0 & H1 & _ & _ & E0 & E1).
      rewrite <- E0 in H0. rewrite <- E1 in H1.
      destruct (Hcol _ _ H0), (Hcol _ _ H1). exists s0, s1. auto. }
    destruct (slice_to (top_n_pairs config) results);
      (eexists; split; [reflexivity|]; cbn [scheduled all_pairs_kept];
       split; [exact Henum|]).
    + discriminate.
    + intros all t Hall. inversion Hall; subst. apply Hres.
Qed.

Lemma X7_columns_with_missing_values_are_dropped_witness :
  exists run,
    @main_from_frame sample_lib small_config frame5 [] = Returned run /\
    (forall a b, In (a, b) (scheduled run) ->
       a <> "NEW/USDT:USDT" /\ b <> "NEW/USDT:USDT") /\
    List.length (scheduled run) = 6%nat.
Proof.
  destruct (X7_columns_with_missing_values_are_dropped
              sample_lib small_config frame5 [])
    as (_ & _ & run & Hrun & _ & _).
  exists run. split; [exact Hrun|].
  vm_compute in Hrun. inversion Hrun; subst. cbn [scheduled]. split.
  - intros a b Hin.
    repeat (destruct Hin as [Hin|Hin];
            [inversion Hin; subst; split; discriminate|]).
    destruct Hin.
  - reflexivity.
Defined.

(** ** The lookup loop *)

Lemma upper_char_idem (c : ascii) : upper_char (upper_char c) = upper_char c.
Proof. destruct c as [[] [] [] [] [] [] [] []]; reflexivity. Qed.

Lemma upper_char_space (c : ascii) : is_space (upper_char c) = is_space c.
Proof. destruct c as [[] [] [] [] [] [] [] []]; reflexivity. Qed.

Lemma upper_idem (s : string) : upper (upper s) = upper s.
Proof.
  induction s as [|c s IH]; cbn; trivial.
  now rewrite upper_char_idem, IH.
Qed.

Lemma lstrip_upper (s : string) : lstrip (upper s) = upper (lstrip s).
Proof.
  induction s as [|c s IH]; cbn; trivial.
  rewrite upper_char_space. destruct (is_space c); [exact IH|reflexivity].
Qed.

Lemma rstrip_upper (s : string) : rstrip (upper s) = upper (rstrip s).
Proof.
  induction s as [|c s IH]; cbn; trivial.
  rewrite IH, upper_char_space.
  destruct (rstrip s); cbn; trivial.
  destruct (is_space c); reflexivity.
Qed.

Lemma strip_upper (s : string) : strip (upper s) = upper (strip s).
Proof. unfold strip. now rewrite lstrip_upper, rstrip_upper. Qed.

Lemma rstrip_idem (s : string) : rstrip (rstrip s) = rstrip s.
Proof.
  induction s as [|c s IH]; cbn; trivial.
  destruct (rstrip s) as [|d r] eqn:E.
  - destruct (is_space c) eqn:Ec; cbn; trivial. now rewrite Ec.
  - cbn [rstrip]. cbn [rstrip] in IH. now rewrite IH.
Qed.

Lemma lstrip_rstrip (s : string) :
  lstrip (rstrip (lstrip s)) = rstrip (lstrip s).
Proof.
  induction s as [|c s IH]; cbn [lstrip]; trivial.
  destruct (is_space c) eqn:Ec; [exact IH|].
  cbn [rstrip]. destruct (rstrip s); rewrite ?Ec; cbn [lstrip];
    now rewrite Ec.
Qed.

Lemma strip_idem (s : string) : strip (strip s) = strip s.
Proof. unfold strip. now rewrite lstrip_rstrip, rstrip_idem. Qed.

Lemma selected_input_idem (raw : string) :
  upper (strip (upper (strip raw))) = upper (strip raw).
Proof. now rewrite strip_upper, strip_idem, upper_idem. Qed.

(** X8.  A turn of the lookup loop depends on the line typed in only up
    to letter case and surrounding white space: the line and its
    trimmed upper-case form give the same events and the same decision
    to go on. *)
Theorem X8_lookup_ignores_case_and_blanks :
  forall (all_pairs : list PairTuple) (raw : string),
    lookup_step all_pairs raw = lookup_step all_pairs (upper (strip raw)) /\
    lookup_step all_pairs (upper raw) = lookup_step all_pairs raw /\
    lookup_step all_pairs (strip raw) = lookup_step all_pairs raw.
Proof.
  intros all_pairs raw. unfold lookup_step. cbn zeta.
  rewrite selected_input_idem, strip_upper, upper_idem, strip_idem.
  repeat split.
Qed.

Lemma lookup_step_exit (all_pairs : list PairTuple) (raw : string) :
  snd (lookup_step all_pairs raw) = negb (is_exit_line raw).
Proof.
  unfold lookup_step, is_exit_line. cbn zeta.
  destruct (String.eqb (upper (strip raw)) "X"); trivial.
  destruct (String.eqb (upper (strip raw)) "LIST"); trivial.
  destruct (matching_pairs _ _); trivial.
Qed.

Lemma lookup_step_exit_events (all_pairs : list PairTuple) (raw : string) :
  is_exit_line raw = true ->
  lookup_step all_pairs raw
  = ([Asked lookup_prompt; Cleared; Printed "Exiting lookup."], false).
Proof.
  unfold lookup_step, is_exit_line. cbn zeta. now intros ->.
Qed.

(** X9.  The lookup loop ends at the first line that is [x] (in either
    case, blanks around it ignored): it returns with "Exiting lookup."
    as its last event and reads none of the lines after it; fed lines
    none of which is [x], it never ends by itself and stops with
    [EOFError] when the lines run out. *)
Theorem X9_lookup_loop_ends_at_first_exit :
  forall (all_pairs : list PairTuple) (before after : list string)
         (line : string),
  forallb (fun raw => negb (is_exit_line raw)) before = true ->
  lookup_loop all_pairs before = Raised (Exception "EOFError") /\
  (is_exit_line line = true ->
   lookup_loop all_pairs (before ++ line :: after)
   = lookup_loop all_pairs (before ++ [line]) /\
   exists evs,
     lookup_loop all_pairs (before ++ line :: after)
     = Returned (evs ++ [Printed "Exiting lookup."])).
Proof.
  intros all_pairs before after line.
  induction before as [|raw before IH]; cbn [forallb app lookup_loop].
  - intros _. split; [reflexivity|]. intros Hx.
    rewrite (lookup_step_exit_events _ _ Hx).
    split; [reflexivity|].
    now exists [Asked lookup_prompt; Cleared].
  - intros H. apply andb_true_iff in H as [Hraw Hbefore].
    destruct (IH Hbefore) as [Heof Hexit].
    pose proof (lookup_step_exit all_pairs raw) as Hgo.
    rewrite Hraw in Hgo.
    destruct (lookup_step all_pairs raw) as [evs go]. cbn in Hgo. subst go.
    split.
    + now rewrite Heof.
    + intros Hx. destruct (Hexit Hx) as [Hsame (evs' & Hrun)].
      rewrite Hsame. split; [reflexivity|].
      rewrite <- Hsame, Hrun. cbn.
      exists (evs ++ evs')%list. now rewrite app_assoc.
Qed.

Lemma X9_lookup_loop_ends_at_first_exit_witness :
  lookup_loop ranked_upper ["list"; "eth"; " x "; "sol"]
  = lookup_loop ranked_upper ["list"; "eth"; " x "].
Proof.
  apply (X9_lookup_loop_ends_at_first_exit ranked_upper
           ["list"; "eth"] ["sol"] " x ").
  - reflexivity.
  - reflexivity.
Defined.

(** X10.  A lookup finds a pair only through a symbol whose part before
    the first [/] has no lower-case letter: whatever is typed in, every
    pair returned has a leg whose root equals the upper-case query, and
    a pair both of whose roots hold a lower-case letter is returned for
    no query. *)
Theorem X10_lower_case_roots_are_never_found :
  forall (all_pairs : list PairTuple) (raw : string) (t : PairTuple),
    In t (matching_pairs all_pairs (upper (strip raw))) ->
    In t all_pairs /\
    ((symbol_root (leg0 t) = upper (strip raw)
      /\ is_upper (symbol_root (leg0 t)))
     \/ (symbol_root (leg1 t) = upper (strip raw)
         /\ is_upper (symbol_root (leg1 t)))).
Proof.
  intros all_pairs raw t Hin. unfold matching_pairs in Hin.
  apply filter_In in Hin as [Hin Hmatch]. split; [exact Hin|].
  unfold symbol_root, is_upper.
  apply orb_true_iff in Hmatch as [H|H]; apply String.eqb_eq in H;
    [left|right]; (split; [exact H|]); rewrite H; apply upper_idem.
Qed.

Lemma X10_lower_case_roots_are_never_found_witness :
  In {| leg0 := "ETH/USDT:USDT"; leg1 := "SOL/USDT:USDT";
        pval := f_0_03125; stat := f_1 |} ranked_upper /\
  ((symbol_root "ETH/USDT:USDT" = upper (strip " sol ")
    /\ is_upper (symbol_root "ETH/USDT:USDT"))
   \/ (symbol_root "SOL/USDT:USDT" = upper (strip " sol ")
       /\ is_upper (symbol_root "SOL/USDT:USDT"))).
Proof.
  apply (X10_lower_case_roots_are_never_found ranked_upper " sol "
           {| leg0 := "ETH/USDT:USDT"; leg1 := "SOL/USDT:USDT";
              pval := f_0_03125; stat := f_1 |}).
  vm_compute. now left.
Defined.

(** ** The numbers written *)

Lemma value_app (a b : string) : forall acc,
  digits_value acc (a ++ b) = digits_value (digits_value acc a) b.
Proof. induction a as [|c a IH]; intros acc; cbn; [|rewrite IH]; reflexivity. Qed.

Lemma value_digit (acc d : Z) :
  digits_value acc (String (digit_char d) EmptyString) = 10 * acc + d mod 10.
Proof.
  unfold digit_char, digits_value.
  pose proof (Z.mod_pos_bound d 10 ltac:(lia)).
  rewrite N_ascii_embedding by lia. lia.
Qed.

Lemma value_int_digits (fuel : nat) : forall n,
  0 <= n < 10 ^ Z.of_nat (S fuel) -> digits_value 0 (int_digits fuel n) = n.
Proof.
  induction fuel as [|fuel IH]; intros n Hn.
  - cbn [int_digits]. rewrite value_digit.
    change (10 ^ Z.of_nat 1) with 10 in Hn.
    rewrite Z.mod_small; lia.
  - cbn [int_digits]. destruct (Z.ltb_spec n 10).
    + rewrite value_digit, Z.mod_small; lia.
    + rewrite value_app, IH, value_digit.
      * pose proof (Z.div_mod n 10 ltac:(lia)). lia.
      * rewrite Nat2Z.inj_succ, Z.pow_succ_r in Hn by lia.
        split; [apply Z.div_pos; lia|].
        apply Z.div_lt_upper_bound; lia.
Qed.

Lemma value_str_int (n : Z) : 0 <= n -> digits_value 0 (str_int n) = n.
Proof.
  intros Hn. unfold str_int. apply value_int_digits.
  destruct (Z.eq_dec n 0) as [->|Hne]; [cbn; lia|].
  pose proof (Z.log2_spec n ltac:(lia)) as [_ Hlog].
  pose proof (Z.log2_nonneg n).
  rewrite Nat2Z.inj_succ, Z2Nat.id by trivial.
  split; [exact Hn|].
  apply Z.lt_le_trans with (2 ^ Z.succ (Z.log2 n)); [exact Hlog|].
  apply Z.pow_le_mono_l. lia.
Qed.

Lemma value_frac_digits (k : nat) : forall acc n,
  digits_value acc (frac_digits k n)
  = acc * 10 ^ Z.of_nat k + n mod 10 ^ Z.of_nat k.
Proof.
  induction k as [|k IH]; intros acc n.
  - cbn. rewrite Z.mod_1_r. lia.
  - cbn [frac_digits]. rewrite value_app, IH, value_digit.
    rewrite Nat2Z.inj_succ, Z.pow_succ_r by lia.
    assert (Hp : 0 < 10 ^ Z.of_nat k) by (apply Z.pow_pos_nonneg; lia).
    rewrite (Z.rem_mul_r n 10 (10 ^ Z.of_nat k)) by lia. lia.
Qed.

Lemma scaled_round_nearest (prec : nat) (m : positive) (e : Z) :
  0 <= scaled_round prec m e /\
  (0 <= e -> scaled_round prec m e = Z.pos m * 2 ^ e * 10 ^ Z.of_nat prec) /\
  (e < 0 ->
   2 * Z.abs (scaled_round prec m e * 2 ^ (- e)
              - Z.pos m * 10 ^ Z.of_nat prec) <= 2 ^ (- e)).
Proof.
  unfold scaled_round.
  assert (Hp : 0 < 10 ^ Z.of_nat prec) by (apply Z.pow_pos_nonneg; lia).
  destruct (Z.leb_spec 0 e) as [He|He].
  - split; [|split; [reflexivity|lia]].
    assert (0 < 2 ^ e) by (apply Z.pow_pos_nonneg; lia). nia.
  - assert (Hd : 0 < 2 ^ (- e)) by (apply Z.pow_pos_nonneg; lia).
    set (num := Z.pos m * 10 ^ Z.of_nat prec) in *.
    set (den := 2 ^ (- e)) in *.
    assert (Hnum : 0 <= num) by (unfold num; nia).
    pose proof (Z.div_mod num den ltac:(lia)) as Hdm.
    pose proof (Z.mod_pos_bound num den Hd) as Hr.
    assert (Hq : 0 <= num / den) by (apply Z.div_pos; lia).
    cbn zeta.
    destruct (Z.ltb_spec (2 * (num mod den)) den);
      [|destruct (Z.ltb_spec den (2 * (num mod den)));
        [|destruct (Z.even (num / den))]];
      (split; [lia|]); (split; [lia|]); intros _; nia.
Qed.

(** X17.  The two numbers of a record are written to the nearest
    multiple of 0.0001 and of 0.01: for a finite p-value or statistic
    [± m * 2^e] the text is the sign, digits, a point and exactly 4 (or
    2) digits, and the integer [N] that the digits spell is
    [m * 2^e * 10^4] (or [10^2]) when that is an integer and is otherwise
    within one half of it. *)
Theorem X17_numbers_are_rounded_to_nearest :
  forall (t : PairTuple) (s : bool) (m : positive) (e : Z),
    (pval t = S754_finite s m e ->
     exists ip fp,
       P_Value (csv_row t) = (sign_str s ++ ip ++ "." ++ fp)%string /\
       String.length fp = 4%nat /\
       (0 <= e -> digits_value 0 (ip ++ fp) = Z.pos m * 2 ^ e * 10 ^ 4) /\
       (e < 0 ->
        2 * Z.abs (digits_value 0 (ip ++ fp) * 2 ^ (- e) - Z.pos m * 10 ^ 4)
        <= 2 ^ (- e))) /\
    (stat t = S754_finite s m e ->
     exists ip fp,
       Score (csv_row t) = (sign_str s ++ ip ++ "." ++ fp)%string /\
       String.length fp = 2%nat /\
       (0 <= e -> digits_value 0 (ip ++ fp) = Z.pos m * 2 ^ e * 10 ^ 2) /\
       (e < 0 ->
        2 * Z.abs (digits_value 0 (ip ++ fp) * 2 ^ (- e) - Z.pos m * 10 ^ 2)
        <= 2 ^ (- e))).
Proof.
  intros t s m e.
  assert (Hfmt : forall prec, prec <> O ->
            exists ip fp,
              format_f prec (S754_finite s m e)
              = (sign_str s ++ ip ++ "." ++ fp)%string /\
              String.length fp = prec /\
              digits_value 0 (ip ++ fp) = scaled_round prec m e).
  { intros prec Hprec. destruct prec as [|p]; [contradiction|].
    set (n := scaled_round (S p) m e).
    destruct (scaled_round_nearest (S p) m e) as [Hn _]. fold n in Hn.
    assert (Hp : 0 < 10 ^ Z.of_nat (S p)) by (apply Z.pow_pos_nonneg; lia).
    exists (str_int (n / 10 ^ Z.of_nat (S p))),
      (frac_digits (S p) (n mod 10 ^ Z.of_nat (S p))).
    split; [reflexivity|].
    split.
    - generalize (n mod 10 ^ Z.of_nat (S p)). generalize (S p).
      intros k. induction k as [|k IH]; intros z; cbn; trivial.
      assert (Hlen : forall a b, String.length (a ++ b)
                       = (String.length a + String.length b)%nat).
      { intros a b. induction a as [|c a IHa]; cbn; [|rewrite IHa];
          reflexivity. }
      rewrite Hlen, IH. cbn. lia.
    - rewrite value_app, value_str_int by (apply Z.div_pos; lia).
      rewrite value_frac_digits, Z.mod_mod by lia.
      pose proof (Z.div_mod n (10 ^ Z.of_nat (S p)) ltac:(lia)). lia. }
  split; intros Heq; cbn [csv_row P_Value Score]; rewrite Heq.
  - destruct (Hfmt 4%nat ltac:(discriminate)) as (ip & fp & Hs & Hl & Hv).
    destruct (scaled_round_nearest 4 m e) as (_ & Hex & Hnear).
    exists ip, fp. rewrite Hv. auto.
  - destruct (Hfmt 2%nat ltac:(discriminate)) as (ip & fp & Hs & Hl & Hv).
    destruct (scaled_round_nearest 2 m e) as (_ & Hex & Hnear).
    exists ip, fp. rewrite Hv. auto.
Qed.

Lemma X17_numbers_are_rounded_to_nearest_witness :
  exists ip fp,
    P_Value (csv_row {| leg0 := "BTC/USDT:USDT"; leg1 := "ETH/USDT:USDT";
                        pval := f_0_03125; stat := f_m3_5 |})
    = (ip ++ "." ++ fp)%string /\
    String.length fp = 4%nat /\
    2 * Z.abs (digits_value 0 (ip ++ fp) * 2 ^ 57
               - 4503599627370496 * 10 ^ 4) <= 2 ^ 57.
Proof.
  destruct (X17_numbers_are_rounded_to_nearest
              {| leg0 := "BTC/USDT:USDT"; leg1 := "ETH/USDT:USDT";
                 pval := f_0_03125; stat := f_m3_5 |}
              false 4503599627370496%positive (-57)) as [Hp _].
  destruct (Hp Logic.eq_refl) as (ip & fp & Hs & Hl & _ & Hnear).
  exists ip, fp. split; [exact Hs|]. split; [exact Hl|].
  apply Hnear. lia.
Defined.

End Extras.

Module FetcherFacts.
Import PyFloat PyStr PyList Engine Fetcher SampleExchange.

Section WithExchange.
Context {X : Exchange}.

Ltac io_case :=
  match goal with
  | |- context [fapiPublic_getTickerDaily ?s ?r] =>
      destruct (fapiPublic_getTickerDaily s r) as [[?|?] ?]
  | |- context [fetch_ticker ?s ?r] =>
      destruct (fetch_ticker s r) as [[?|?] ?]
  | |- context [fapiPublicGetOpenInterest ?s ?r] =>
      destruct (fapiPublicGetOpenInterest s r) as [[?|?] ?]
  | |- context [is_dict ?v] => destruct (is_dict v)
  | |- context [contains ?v ?k] => destruct (contains v k) as [[|]|?]
  | |- context [subscript ?v ?k] => destruct (subscript v k) as [?|?]
  | |- context [py_float ?v] => destruct (py_float v) as [?|?]
  end.

Ltac io_run :=
  unfold try_io, then_, call, lift, ret, log; cbn beta iota zeta;
  repeat (io_case; cbn beta iota zeta).

Lemma get_futures_volume_returns (sym : string) (r : remote) :
  exists v logged r',
    get_futures_volume sym r = (Returned v, logged, r') /\
    (logged = [] \/
     v = zero /\
     exists msg,
       logged = [(ERROR, ("Error fetching volume for " ++ sym ++ ": "
                          ++ msg)%string)]).
Proof.
  unfold get_futures_volume. io_run;
    eexists _, _, _; (split; [reflexivity|]); cbn; eauto.
Qed.

Lemma get_open_interest_returns (sym : string) (r : remote) :
  exists v logged r',
    get_open_interest sym r = (Returned v, logged, r') /\
    (logged = [] \/ v = zero \/
     exists msg,
       logged = [(ERROR, ("Error fetching open interest for " ++ sym ++ ": "
                          ++ msg)%string)]).
Proof.
  unfold get_open_interest. io_run;
    eexists _, _, _; (split; [reflexivity|]); cbn; eauto.
Qed.


(** A market [load_markets] accepts. *)
Local Abbreviation listed_with_interest :=
  (fun m : Market =>
     quote m = "USDT" /\ linear m = true /\ active m = true /\
     exists oi, openInterest m = Some oi /\ lt zero oi = true).

Lemma load_markets_loop_spec (all : list Market) (markets : list Market) :
  forall (valid : list Market) (r : remote),
  incl markets all ->
  Forall listed_with_interest valid ->
  Forall (fun m => exists m0, In m0 all /\ same_listing m m0) valid ->
  exists valid' logged r',
    load_markets_loop markets valid r = (Returned valid', logged, r') /\
    Forall listed_with_interest valid' /\
    Forall (fun m => exists m0, In m0 all /\ same_listing m m0) valid' /\
    (List.length valid' <= List.length valid + List.length markets)%nat.
Proof.
  induction markets as [|market rest IH]; intros valid r Hincl Hgood Hfrom.
  - cbn. eexists _, _, _. split; [reflexivity|]. repeat split; trivial. lia.
  - assert (Hrest : incl rest all)
      by (intros m Hm; apply Hincl; now right).
    cbn [load_markets_loop].
    destruct (String.eqb (quote market) "USDT" && linear market
              && active market) eqn:Hcond.
    + apply andb_true_iff in Hcond as [Hcond Hactive].
      apply andb_true_iff in Hcond as [Hquote Hlinear].
      apply String.eqb_eq in Hquote.
      destruct (get_open_interest_returns (id market) r)
        as (oi & lg & r1 & Hoi & _).
      unfold then_ at 1. unfold try_io, then_ at 1. rewrite Hoi.
      destruct (lt zero oi) eqn:Hpos; unfold ret at 1; cbn beta iota zeta.
      * destruct (IH (valid ++ [set_openInterest market oi])%list r1 Hrest)
          as (valid' & lg' & r' & Hrun & H1 & H2 & H3).
        { apply Forall_app. split; trivial.
          constructor; [|constructor]. cbn. eauto 10. }
        { apply Forall_app. split; trivial.
          constructor; [|constructor].
          exists market. split; [apply Hincl; now left|].
          unfold same_listing. cbn. auto. }
        rewrite Hrun. eexists _, _, _. split; [reflexivity|].
        repeat split; trivial.
        rewrite length_app in H3. cbn in *. lia.
      * destruct (IH valid r1 Hrest Hgood Hfrom)
          as (valid' & lg' & r' & Hrun & H1 & H2 & H3).
        rewrite Hrun. eexists _, _, _. split; [reflexivity|].
        repeat split; trivial. cbn. lia.
    + destruct (IH valid r Hrest Hgood Hfrom)
        as (valid' & lg' & r' & Hrun & H1 & H2 & H3).
      rewrite Hrun. eexists _, _, _. split; [reflexivity|].
      repeat split; trivial. cbn. lia.
Qed.

(** X12.  [load_markets] never raises.  Every market it returns is
    quoted in USDT, linear and active, and carries under [openInterest] a
    value above 0; each is a market of the exchange's list with that key
    written, and there are no more of them than the exchange listed.
    When the exchange's [load_markets] raises, the list is empty. *)
Theorem X12_load_markets_keeps_open_usdt_futures :
  forall r : remote,
  exists valid logged r',
    load_markets r = (Returned valid, logged, r') /\
    Forall (fun m => quote m = "USDT" /\ linear m = true /\ active m = true /\
                     exists oi, openInterest m = Some oi /\ lt zero oi = true)
           valid /\
    (forall all r0,
       exchange_load_markets r = (Returned all, r0) ->
       Forall (fun m => exists m0, In m0 all /\ same_listing m m0) valid /\
       (List.length valid <= List.length all)%nat) /\
    (forall e r0, exchange_load_markets r = (Raised e, r0) -> valid = []).
Proof.
  intros r. unfold load_markets, try_io, then_ at 1, call.
  destruct (exchange_load_markets r) as [[all|e] r0] eqn:Hcall.
  - destruct (load_markets_loop_spec all all [] r0)
      as (valid & lg & r' & Hrun & H1 & H2 & H3);
      [apply incl_refl|constructor|constructor|].
    rewrite Hrun. eexists _, _, _. split; [reflexivity|].
    split; [exact H1|]. split.
    + intros all' r0' Heq. inversion Heq; subst. split; trivial.
    + intros e r0' Heq. discriminate.
  - cbn. eexists _, _, _. split; [reflexivity|].
    split; [constructor|]. split.
    + intros all r0' Heq. discriminate.
    + reflexivity.
Qed.

(** A market the open-interest filter accepts. *)
Local Abbreviation above_min_interest :=
  (fun (config : Config) (m : Market) =>
     exists oi, openInterest m = Some oi
                /\ lt (min_open_interest config) oi = true).

Lemma volume_check_returns (config : Config) (market : Market) (r : remote) :
  exists pv logged r',
    volume_check config market r = (Returned pv, logged, r').
Proof.
  unfold volume_check.
  destruct (enable_volume_filter config); [|unfold ret; eauto].
  destruct (get_futures_volume_returns (id market) r)
    as (vol & lg & r1 & Hv & _).
  unfold then_. rewrite Hv.
  destruct (le vol _); unfold ret; eauto.
Qed.

Lemma interest_check_returns (config : Config) (market : Market) (r : remote) :
  exists m' po logged r',
    interest_check config market r = (Returned (m', po), logged, r') /\
    kept_from config m' market /\
    (po = true -> enable_open_interest_filter config = true ->
     above_min_interest config m').
Proof.
  unfold interest_check.
  destruct (enable_open_interest_filter config).
  - destruct (get_open_interest_returns (id market) r)
      as (oi & lg & r2 & Ho & _).
    unfold then_. rewrite Ho.
    destruct (lt (min_open_interest config) oi) eqn:Hgt; unfold ret.
    + eexists _, _, _, _. split; [reflexivity|].
      split; [right; eauto|]. cbn. eauto.
    + eexists _, _, _, _. split; [reflexivity|].
      split; [now left|]. discriminate.
  - unfold ret. eexists _, _, _, _. split; [reflexivity|].
    split; [now left|]. discriminate.
Qed.

Lemma kept_from_same_listing (config : Config) (m m0 : Market) :
  kept_from config m m0 -> same_listing m m0.
Proof.
  unfold same_listing. intros [->|(oi & -> & _)]; cbn; auto.
Qed.

Lemma liquidity_loop_spec (config : Config) (all : list Market)
  (markets : list Market) :
  forall (filtered : list Market) (r : remote),
  incl markets all ->
  Forall (fun m => exists m0, In m0 all /\ kept_from config m m0) filtered ->
  (enable_open_interest_filter config = true ->
   Forall (above_min_interest config) filtered) ->
  exists filtered' logged r',
    liquidity_loop config markets filtered r = (Returned filtered', logged, r') /\
    Forall (fun m => exists m0, In m0 all /\ kept_from config m m0) filtered' /\
    (enable_open_interest_filter config = true ->
     Forall (above_min_interest config) filtered') /\
    (List.length filtered' <= List.length filtered + List.length markets)%nat.
Proof.
  induction markets as [|market rest IH]; intros filtered r Hincl Hfrom Hoi.
  - cbn. eexists _, _, _. split; [reflexivity|]. repeat split; trivial. lia.
  - assert (Hrest : incl rest all)
      by (intros m Hm; apply Hincl; now right).
    cbn [liquidity_loop].
    destruct (volume_check_returns config market r) as (pv & lg1 & r1 & Hvol).
    unfold then_ at 1. rewrite Hvol.
    destruct (interest_check_returns config market r1)
      as (m' & po & lg2 & r2 & Hint & Hsame & Hab).
    unfold then_ at 1. rewrite Hint.
    destruct (IH (if pv && po then (filtered ++ [m'])%list else filtered)
                 r2 Hrest)
      as (filtered' & lg' & r' & Hrun & H1 & H2 & H3).
    { destruct (pv && po); trivial.
      apply Forall_app. split; trivial. constructor; [|constructor].
      exists market. split; [apply Hincl; now left|exact Hsame]. }
    { intros Hen. specialize (Hoi Hen).
      destruct (pv && po) eqn:Hp; trivial.
      apply Forall_app. split; trivial. constructor; [|constructor].
      apply andb_true_iff in Hp as [_ Hp]. auto. }
    rewrite Hrun. eexists _, _, _. split; [reflexivity|].
    repeat split; trivial.
    destruct (pv && po); rewrite ?length_app in H3; cbn in *; lia.
Qed.

(** X13.  The liquidity filters of [main] never raise and only select:
    every market they keep is one of the markets given, untouched or with
    an open interest above [min_open_interest] written to it, and there
    are no more of them; with the open-interest filter on, every kept
    market carries such an [openInterest]; with both filters off the
    markets are kept as they are and the exchange is not called. *)
Theorem X13_liquidity_filter_selects :
  forall (config : Config) (markets : list Market) (r : remote),
  exists filtered logged r',
    liquidity_filter config markets r = (Returned filtered, logged, r') /\
    Forall (fun m => exists m0, In m0 markets /\ kept_from config m m0)
           filtered /\
    (List.length filtered <= List.length markets)%nat /\
    (enable_open_interest_filter config = true ->
     Forall (fun m => exists oi, openInterest m = Some oi
                      /\ lt (min_open_interest config) oi = true) filtered) /\
    (enable_volume_filter config = false ->
     enable_open_interest_filter config = false ->
     filtered = markets /\ logged = [] /\ r' = r).
Proof.
  intros config markets r. unfold liquidity_filter.
  destruct (enable_volume_filter config || enable_open_interest_filter config)
    eqn:Hany.
  - destruct (liquidity_loop_spec config markets markets [] r)
      as (filtered & lg & r' & Hrun & H1 & H2 & H3);
      [apply incl_refl|constructor|intros _; constructor|].
    rewrite Hrun. eexists _, _, _. split; [reflexivity|].
    split; [exact H1|]. split; [exact H3|]. split; [exact H2|].
    intros Hv Ho. rewrite Hv, Ho in Hany. discriminate.
  - apply orb_false_iff in Hany as [Hv Ho].
    unfold ret. eexists _, _, _. split; [reflexivity|]. split.
    + rewrite Forall_forall. intros m Hm. exists m.
      split; [exact Hm|now left].
    + split; [lia|]. split; [congruence|]. intros _ _. repeat split.
Qed.

(** The endpoints of the exchange raise on [sym], whenever called. *)
Local Abbreviation unreachable sym :=
  ((forall r, exists e r', fapiPublic_getTickerDaily sym r = (Raised e, r')) /\
   (forall r, exists e r', fetch_ticker sym r = (Raised e, r')) /\
   (forall r, exists e r', fapiPublicGetOpenInterest sym r = (Raised e, r'))).

Lemma unreachable_volume (sym : string) (r : remote) :
  unreachable sym ->
  exists logged r', get_futures_volume sym r = (Returned zero, logged, r').
Proof.
  intros (Hd & Ht & _). unfold get_futures_volume.
  unfold try_io, then_, call, lift, ret, log.
  destruct (Hd r) as (e & r1 & ->). cbn beta iota zeta.
  destruct (Ht r1) as (e2 & r2 & ->). cbn beta iota zeta. eauto.
Qed.

Lemma unreachable_interest (sym : string) (r : remote) :
  unreachable sym ->
  exists logged r', get_open_interest sym r = (Returned zero, logged, r').
Proof.
  intros (_ & Ht & Ho). unfold get_open_interest.
  unfold try_io, then_, call, lift, ret, log.
  destruct (Ho r) as (e & r1 & ->). cbn beta iota zeta.
  destruct (Ht r1) as (e2 & r2 & ->). cbn beta iota zeta. eauto.
Qed.

Lemma load_markets_loop_unreachable (sym : string) (markets : list Market) :
  unreachable sym ->
  forall (valid : list Market) (r : remote) valid' logged r',
  load_markets_loop markets valid r = (Returned valid', logged, r') ->
  Forall (fun m => id m <> sym) valid ->
  Forall (fun m => id m <> sym) valid'.
Proof.
  intros Hun. induction markets as [|market rest IH];
    intros valid r valid' logged r' Hrun Hno.
  - cbn in Hrun. inversion Hrun; subst. exact Hno.
  - cbn [load_markets_loop] in Hrun.
    destruct (String.eqb (quote market) "USDT" && linear market
              && active market); [|eapply IH; eauto].
    unfold then_ at 1, try_io, then_ at 1 in Hrun.
    destruct (String.eqb_spec (id market) sym) as [Heq|Hne].
    + destruct (unreachable_interest sym r Hun) as (lg & r1 & Hoi).
      rewrite Heq, Hoi in Hrun.
      assert (Hzero : lt zero zero = false) by reflexivity.
      rewrite Hzero in Hrun. unfold ret at 1 in Hrun.
      cbn beta iota zeta in Hrun.
      destruct (load_markets_loop rest valid r1) as [[[v|e] lg'] r''] eqn:E;
        inversion Hrun; subst.
      eapply IH; eauto.
    + destruct (get_open_interest_returns (id market) r)
        as (oi & lg & r1 & Hoi & _).
      rewrite Hoi in Hrun.
      destruct (lt zero oi); unfold ret at 1 in Hrun;
        cbn beta iota zeta in Hrun;
        match type of Hrun with
        | context [load_markets_loop rest ?v r1] =>
            destruct (load_markets_loop rest v r1)
              as [[[v'|e] lg'] r''] eqn:E
        end; inversion Hrun; subst; eapply IH; eauto.
      apply Forall_app. split; trivial. constructor; [|constructor].
      exact Hne.
Qed.

Lemma liquidity_loop_unreachable (config : Config) (sym : string)
  (markets : list Market) :
  unreachable sym ->
  enable_volume_filter config = true ->
  le zero (SFdiv 53 1024 (min_volume config) fourteen) = true ->
  forall (filtered : list Market) (r : remote) filtered' logged r',
  liquidity_loop config markets filtered r = (Returned filtered', logged, r') ->
  Forall (fun m => id m <> sym) filtered ->
  Forall (fun m => id m <> sym) filtered'.
Proof.
  intros Hun Hen Hmin. induction markets as [|market rest IH];
    intros filtered r filtered' logged r' Hrun Hno.
  - cbn in Hrun. inversion Hrun; subst. exact Hno.
  - cbn [liquidity_loop] in Hrun.
    destruct (volume_check_returns config market r) as (pv & lg1 & r1 & Hvol).
    assert (Hpv : id market = sym -> pv = false).
    { intros Heq. unfold volume_check in Hvol. rewrite Hen in Hvol.
      destruct (unreachable_volume sym r Hun) as (lg0 & r0 & Hz).
      unfold then_ in Hvol. rewrite Heq, Hz, Hmin in Hvol.
      unfold ret in Hvol. now inversion Hvol. }
    unfold then_ at 1 in Hrun. rewrite Hvol in Hrun.
    destruct (interest_check_returns config market r1)
      as (m' & po & lg2 & r2 & Hint & Hsame & _).
    unfold then_ at 1 in Hrun. rewrite Hint in Hrun.
    match type of Hrun with
    | context [liquidity_loop config rest ?v r2] =>
        destruct (liquidity_loop config rest v r2)
          as [[[v'|e] lg'] r''] eqn:E
    end; inversion Hrun; subst.
    eapply IH; eauto.
    destruct (pv && po) eqn:Hp; trivial.
    apply Forall_app. split; trivial. constructor; [|constructor].
    apply andb_true_iff in Hp as [Hp _].
    apply kept_from_same_listing in Hsame.
    destruct Hsame as [Hid _]. rewrite Hid. intros Heq.
    rewrite (Hpv Heq) in Hp. discriminate.
Qed.

(** X14.  A market that no endpoint of the exchange answers for never
    gets through: [load_markets] does not return it (its open interest
    counts as 0), and with the volume filter on and a threshold
    [min_volume / 14] that is not negative, the liquidity filters do not
    keep it (its volume counts as 0). *)
Theorem X14_unreachable_market_is_excluded :
  forall (config : Config) (sym : string) (markets : list Market)
         (r : remote),
  (forall r, exists e r', fapiPublic_getTickerDaily sym r = (Raised e, r')) ->
  (forall r, exists e r', fetch_ticker sym r = (Raised e, r')) ->
  (forall r, exists e r', fapiPublicGetOpenInterest sym r = (Raised e, r')) ->
  (forall valid logged r',
     load_markets r = (Returned valid, logged, r') ->
     Forall (fun m => id m <> sym) valid) /\
  (enable_volume_filter config = true ->
   le zero (SFdiv 53 1024 (min_volume config) fourteen) = true ->
   forall filtered logged r',
     liquidity_filter config markets r = (Returned filtered, logged, r') ->
     Forall (fun m => id m <> sym) filtered).
Proof.
  intros config sym markets r Hd Ht Ho.
  assert (Hun : unreachable sym) by auto.
  split.
  - intros valid logged r'. unfold load_markets, try_io, then_ at 1, call.
    destruct (exchange_load_markets r) as [[all|e] r0].
    + destruct (load_markets_loop all [] r0) as [[[v|e] lg] r1] eqn:E.
      * intros H; inversion H; subst.
        eapply load_markets_loop_unreachable; eauto.
      * unfold then_, log, ret. cbn. intros H; inversion H; subst.
        constructor.
    + unfold then_, log, ret. cbn. intros H; inversion H; subst. constructor.
  - intros Hen Hmin filtered logged r'. unfold liquidity_filter.
    rewrite Hen. cbn [orb]. intros Hrun.
    eapply liquidity_loop_unreachable; eauto.
Qed.

(** ** From the prompt to the markets *)

Lemma lower_char_idem (c : ascii) : lower_char (lower_char c) = lower_char c.
Proof. destruct c as [[] [] [] [] [] [] [] []]; reflexivity. Qed.

Lemma lower_char_space (c : ascii) : is_space (lower_char c) = is_space c.
Proof. destruct c as [[] [] [] [] [] [] [] []]; reflexivity. Qed.

Lemma lower_idem (s : string) : lower (lower s) = lower s.
Proof.
  induction s as [|c s IH]; cbn; trivial.
  now rewrite lower_char_idem, IH.
Qed.

Lemma lstrip_lower (s : string) : lstrip (lower s) = lower (lstrip s).
Proof.
  induction s as [|c s IH]; cbn; trivial.
  rewrite lower_char_space. destruct (is_space c); [exact IH|reflexivity].
Qed.

Lemma rstrip_lower (s : string) : rstrip (lower s) = lower (rstrip s).
Proof.
  induction s as [|c s IH]; cbn; trivial.
  rewrite IH, lower_char_space.
  destruct (rstrip s); cbn; trivial.
  destruct (is_space c); reflexivity.
Qed.

Lemma filter_choice_idem (raw : string) :
  lower (strip (lower (strip raw))) = lower (strip raw).
Proof.
  unfold strip at 1. rewrite lstrip_lower, rstrip_lower.
  fold (strip (strip raw)). now rewrite Extras.strip_idem, lower_idem.
Qed.

(** X15.  The answer at the prompt counts up to letter case and
    surrounding blanks.  The volume filter is switched on exactly by
    [v], [b] and [y], the open-interest filter exactly by [oi], [b] and
    [y]; after any other answer, the empty line included, the liquidity
    filters keep the markets as they are without calling the exchange. *)
Theorem X15_filter_choice :
  forall (raw : string) (config : Config),
    choose_filters raw config = choose_filters (lower (strip raw)) config /\
    (enable_volume_filter (choose_filters raw config) = true <->
     In (lower (strip raw)) ["v"; "b"; "y"]) /\
    (enable_open_interest_filter (choose_filters raw config) = true <->
     In (lower (strip raw)) ["oi"; "b"; "y"]) /\
    (~ In (lower (strip raw)) ["v"; "oi"; "b"; "y"] ->
     forall (markets : list Market) (r : remote),
       liquidity_filter (choose_filters raw config) markets r
       = (Returned markets, [], r)).
Proof.
  intros raw config. unfold choose_filters. cbn zeta.
  rewrite filter_choice_idem.
  split; [reflexivity|].
  destruct (String.eqb_spec (lower (strip raw)) "v") as [Hv|Hv].
  { rewrite Hv. cbn. intuition (try discriminate; auto). }
  destruct (String.eqb_spec (lower (strip raw)) "oi") as [Ho|Ho].
  { rewrite Ho. cbn. intuition (try discriminate; auto). }
  destruct (String.eqb_spec (lower (strip raw)) "b") as [Hb|Hb].
  { rewrite Hb. cbn. intuition (try discriminate; auto). }
  destruct (String.eqb_spec (lower (strip raw)) "y") as [Hy|Hy].
  { rewrite Hy. cbn. intuition (try discriminate; auto). }
  cbn. repeat split; try discriminate; try reflexivity;
    intros H; exfalso; intuition congruence.
Qed.

Lemma load_markets_listed (r : remote) :
  exists valid logged r',
    load_markets r = (Returned valid, logged, r') /\
    Forall listed_with_interest valid.
Proof.
  unfold load_markets, try_io, then_ at 1, call.
  destruct (exchange_load_markets r) as [[all|e] r0].
  - destruct (load_markets_loop_spec all all [] r0)
      as (valid & lg & r' & Hrun & H1 & _);
      [apply incl_refl|constructor|constructor|].
    rewrite Hrun. eauto.
  - cbn. eexists _, _, _. split; [reflexivity|constructor].
Qed.

Lemma liquidity_filter_kept (config : Config) (markets : list Market)
  (r : remote) :
  exists filtered logged r',
    liquidity_filter config markets r = (Returned filtered, logged, r') /\
    Forall (fun m => exists m0, In m0 markets /\ kept_from config m m0)
           filtered /\
    (enable_open_interest_filter config = true ->
     Forall (above_min_interest config) filtered).
Proof.
  unfold liquidity_filter.
  destruct (enable_volume_filter config || enable_open_interest_filter config)
    eqn:Hany.
  - destruct (liquidity_loop_spec config markets markets [] r)
      as (filtered & lg & r' & Hrun & H1 & H2 & _);
      [apply incl_refl|constructor|intros _; constructor|].
    rewrite Hrun. eauto 6.
  - apply orb_false_iff in Hany as [_ Ho].
    unfold ret. eexists _, _, _. split; [reflexivity|]. split.
    + rewrite Forall_forall. intros m Hm. exists m. split; [exact Hm|now left].
    + congruence.
Qed.

(** X16.  The start of [main] never raises, and when it goes on to fetch
    prices it does so for a list of markets that is not empty and in
    which every market is quoted in USDT, linear and active and carries
    an open interest that was found above 0 (by [load_markets]) or above
    [min_open_interest] (by the filter); with the open-interest filter on
    it is above [min_open_interest] for all of them. *)
Theorem X16_markets_fetched_are_open_usdt_futures :
  forall (config : Config) (r : remote),
  exists chosen logged r',
    main_markets config r = (Returned chosen, logged, r') /\
    forall markets, chosen = Some markets ->
      markets <> [] /\
      Forall (fun m =>
                quote m = "USDT" /\ linear m = true /\ active m = true /\
                exists oi, openInterest m = Some oi /\
                  (lt zero oi = true
                   \/ lt (min_open_interest config) oi = true)) markets /\
      (enable_open_interest_filter config = true ->
       Forall (fun m => exists oi, openInterest m = Some oi
                        /\ lt (min_open_interest config) oi = true) markets).
Proof.
  intros config r. unfold main_markets.
  destruct (load_markets_listed r) as (valid & lg & r1 & Hload & Hlisted).
  unfold then_ at 1. rewrite Hload.
  unfold then_ at 1, log at 1.
  destruct valid as [|m0 valid].
  { unfold then_, log, ret. eexists _, _, _. split; [reflexivity|].
    discriminate. }
  destruct (liquidity_filter_kept config (m0 :: valid) r1)
    as (filtered & lg2 & r2 & Hfilter & Hkept & Hmin).
  unfold then_ at 1. rewrite Hfilter.
  unfold then_ at 1, log at 1.
  destruct filtered as [|m filtered].
  { unfold then_, log, ret. eexists _, _, _. split; [reflexivity|].
    discriminate. }
  unfold ret. eexists _, _, _. split; [reflexivity|].
  intros markets Hsome. inversion Hsome; subst. clear Hsome.
  split; [discriminate|]. split; [|exact Hmin].
  rewrite Forall_forall in *. intros m' Hm'.
  destruct (Hkept m' Hm') as (m1 & Hin & Hfrom).
  destruct (Hlisted m1 Hin) as (Hq & Hl & Ha & oi & Hoi & Hpos).
  destruct Hfrom as [->|(oi' & -> & Hgt)]; cbn; eauto 10.
Qed.

End WithExchange.

Lemma X12_load_markets_keeps_open_usdt_futures_witness :
  exists valid logged r',
    @load_markets sample_exchange 0%nat = (Returned valid, logged, r') /\
    map id valid = ["BTCUSDT"; "ETHUSDT"] /\
    (List.length valid <= List.length sample_markets)%nat.
Proof.
  destruct (X12_load_markets_keeps_open_usdt_futures
              (X := sample_exchange) 0%nat)
    as (valid & logged & r' & Hrun & _ & Hfrom & _).
  destruct (Hfrom sample_markets 1%nat Logic.eq_refl) as [_ Hlen].
  exists valid, logged, r'. split; [exact Hrun|].
  split; [|exact Hlen].
  vm_compute in Hrun. inversion Hrun. reflexivity.
Defined.

Lemma X13_liquidity_filter_selects_witness :
  exists filtered logged r',
    @liquidity_filter sample_exchange both_filters sample_markets 0%nat
    = (Returned filtered, logged, r') /\
    Forall (fun m => exists oi, openInterest m = Some oi
                     /\ lt (min_open_interest both_filters) oi = true)
           filtered /\
    map id filtered = ["BTCUSDT"; "ETHBUSD"; "ETHUSDT"].
Proof.
  destruct (X13_liquidity_filter_selects (X := sample_exchange)
              both_filters sample_markets 0%nat)
    as (filtered & logged & r' & Hrun & _ & _ & Hoi & _).
  exists filtered, logged, r'. split; [exact Hrun|].
  split; [apply Hoi; reflexivity|].
  vm_compute in Hrun. inversion Hrun. reflexivity.
Defined.

Lemma X14_unreachable_market_is_excluded_witness :
  exists valid logged r' filtered logged2 r2,
    @load_markets sample_exchange 0%nat = (Returned valid, logged, r') /\
    Forall (fun m => id m <> "DEADUSDT") valid /\
    @liquidity_filter sample_exchange both_filters sample_markets 0%nat
    = (Returned filtered, logged2, r2) /\
    Forall (fun m => id m <> "DEADUSDT") filtered.
Proof.
  destruct (X14_unreachable_market_is_excluded (X := sample_exchange)
              both_filters "DEADUSDT" sample_markets 0%nat)
    as [Hload Hfilter].
  - intros r. cbn. eauto.
  - intros r. cbn. eauto.
  - intros r. cbn. eauto.
  - eexists _, _, _, _, _, _.
    split; [vm_compute; reflexivity|].
    split; [eapply Hload; vm_compute; reflexivity|].
    split; [vm_compute; reflexivity|].
    eapply Hfilter; [reflexivity|reflexivity|vm_compute; reflexivity].
Defined.

Lemma X15_filter_choice_witness :
  @liquidity_filter sample_exchange (choose_filters " No " both_filters)
    sample_markets 0%nat = (Returned sample_markets, [], 0%nat).
Proof.
  apply (X15_filter_choice (X := sample_exchange) " No " both_filters).
  cbn. intuition discriminate.
Defined.

Lemma X16_markets_fetched_are_open_usdt_futures_witness :
  exists markets logged r',
    @main_markets sample_exchange both_filters 0%nat
    = (Returned (Some markets), logged, r') /\
    markets <> [] /\ map id markets = ["BTCUSDT"; "ETHUSDT"].
Proof.
  destruct (X16_markets_fetched_are_open_usdt_futures
              (X := sample_exchange) both_filters 0%nat)
    as (chosen & logged & r' & Hrun & Hsome).
  vm_compute in Hrun. inversion Hrun; subst.
  destruct (Hsome _ Logic.eq_refl) as [Hne _].
  eexists _, _, _. split; [reflexivity|]. split; [exact Hne|reflexivity].
Defined.

End FetcherFacts.
